(** * Langer: a runtime language-selection state holder

    Shallow embedding of the [Langer] class and of [presetLanguage]
    (TypeScript), together with the properties of its lifecycle state
    machine and of its locale-negotiation algorithm.

    Conventions of the embedding.
    - JavaScript values that the code only tests for truthiness or stores
      are modelled by [Value]; [undefined] is a value of its own.
    - A dictionary is a plain object, given by the list of its own
      enumerable string-keyed properties in the order [Object.keys]
      reports them.  Reading a key it does not have goes to
      [Object.prototype]: it yields the inherited member when the key names
      one and [undefined] otherwise.
    - The class mutates [this] and talks to collaborators that live in the
      host environment (the recorder, a preset function, [localStorage],
      [navigator.languages]).  An async method is a state transformer over
      the pair (instance, host world) that also returns either a value or
      the thrown error: a [throw] keeps every assignment made before it.
    - One logical caller drives the instance: the [await] points are
      sequenced, nothing interleaves with them. *)

From Stdlib Require Import String Ascii List ZArith Bool.
From stdpp Require Import gmap strings.
Import ListNotations.

Local Open Scope string_scope.
Local Open Scope list_scope.

(** ** JavaScript values and truthiness *)

#[warnings="-register-all"]
Inductive Value : Type :=
| VUndefined
| VNull
| VBool (b : bool)
| VNum (n : Z)
| VStr (s : string)
| VObj (props : list (string * Value))
| VInherited (member : string).

(** [VInherited m] is the member [m] of [Object.prototype] as a plain
    object inherits it: a built-in function, or the prototype object itself
    for [__proto__]. *)

(** [!s] for a string: only the empty string is falsy. *)
Definition truthy_string (s : string) : bool :=
  match s with
  | EmptyString => false
  | String _ _ => true
  end.

(** JavaScript [ToBoolean] on the modelled values (numbers are integers
    here, so the only falsy number is zero). *)
Definition truthy (v : Value) : bool :=
  match v with
  | VUndefined => false
  | VNull => false
  | VBool b => b
  | VNum n => negb (n =? 0)%Z
  | VStr s => truthy_string s
  | VObj _ => true
  | VInherited _ => true
  end.

(** [string | undefined] and [string | null] fields: [None] is the absent
    value, and an empty string is falsy as well. *)
Definition truthy_opt (o : option string) : bool :=
  match o with
  | Some s => truthy_string s
  | None => false
  end.

(** ** Dictionaries *)

Definition Dictionary : Type := list (string * Value).

Definition Object_keys (d : Dictionary) : list string := map fst d.

(** The own property of [d] under [key], if it has one. *)
Fixpoint own_prop (d : Dictionary) (key : string) : option Value :=
  match d with
  | [] => None
  | (k, v) :: rest => if String.eqb k key then Some v else own_prop rest key
  end.

(** [Array.prototype.includes] on an array of strings. *)
Fixpoint includes (arr : list string) (x : string) : bool :=
  match arr with
  | [] => false
  | y :: rest => if String.eqb y x then true else includes rest x
  end.

(** The names of the members every plain object inherits from
    [Object.prototype]. *)
Definition Object_prototype_keys : list string :=
  [ "constructor"; "__defineGetter__"; "__defineSetter__"; "hasOwnProperty";
    "__lookupGetter__"; "__lookupSetter__"; "isPrototypeOf";
    "propertyIsEnumerable"; "toString"; "valueOf"; "__proto__";
    "toLocaleString" ].

(** [d[key]]: the own property when there is one, otherwise the member
    inherited under that name, otherwise [undefined]. *)
Definition get_prop (d : Dictionary) (key : string) : Value :=
  match own_prop d key with
  | Some v => v
  | None =>
      if includes Object_prototype_keys key then VInherited key
      else VUndefined
  end.

(** [arr.toString()], which a template literal applies to an array:
    the elements joined by commas. *)
Fixpoint join_comma (arr : list string) : string :=
  match arr with
  | [] => EmptyString
  | [x] => x
  | x :: rest => x ++ "," ++ join_comma rest
  end.

(** [s.split(sep)[0]]: the text before the first separator, the whole
    string when there is none. *)
Fixpoint split_first (sep : ascii) (s : string) : string :=
  match s with
  | EmptyString => EmptyString
  | String c rest =>
      if Ascii.eqb c sep then EmptyString else String c (split_first sep rest)
  end.

(** ** Errors *)

(** The code throws plain [Error] objects told apart by their message; one
    constructor per throw site.  [TypeError] is what the runtime raises
    when a method is called on an [undefined] collaborator, [HostError] is
    whatever an injected recorder or preset function throws. *)
Inductive Error : Type :=
| AlreadyInitializedError
| EmptyDictionaryError
| NotReadyError
| LanguageUnavailableError (language : string) (langs : list string)
| PresetUnavailableError (lang : string) (langs : list string)
| NoMatchError
| AlreadyDisposedError
| TypeError
| HostError (msg : string).

Definition dquote : string := String "034"%char EmptyString.

Definition message (e : Error) : string :=
  match e with
  | AlreadyInitializedError =>
      "[langer] Invalid operation. This has been initialized."
  | EmptyDictionaryError =>
      "[langer] Initialization failed. Unable to get the list of available languages."
  | NotReadyError =>
      "[langer] Invalid operation. Not initialized yet, failed to initialize or has been disposed."
  | LanguageUnavailableError language langs =>
      "[langer] Cannot speak the " ++ dquote ++ language ++ dquote
      ++ " language that are not on the available languages("
      ++ join_comma langs ++ ")."
  | PresetUnavailableError lang langs =>
      "[langer] The preset language " ++ dquote ++ lang ++ dquote
      ++ " is not on the available languages(" ++ join_comma langs ++ ")."
  | NoMatchError =>
      "[langer] The presetLanguage function cannot preset the current language."
  | AlreadyDisposedError =>
      "[langer] Invalid operation. This has been disposed."
  | TypeError => "TypeError"
  | HostError msg => msg
  end.

Inductive Result (A : Type) : Type :=
| Ok (a : A)
| Throw (e : Error).
Arguments Ok {A} a.
Arguments Throw {A} e.

(** ** The default preset resolver *)

(** [Array.prototype.some] with a callback that also writes to a captured
    variable: the callback maps the element and the variable's value to its
    boolean result and the variable's new value; iteration stops at the
    first [true]. *)
Fixpoint array_some {A S : Type} (cb : A -> S -> bool * S)
    (arr : list A) (st : S) : bool * S :=
  match arr with
  | [] => (false, st)
  | x :: rest =>
      let (stop, st') := cb x st in
      if stop then (true, st') else array_some cb rest st'
  end.

(** The arrow function handed to [priorities.some]; [found] is the captured
    variable. *)
Definition presetLanguage_callback (availableLanguages : list string)
    (lang : string) (found : option string) : bool * option string :=
  if includes availableLanguages lang then (true, Some lang)
  else
    let lang := split_first "-"%char lang in
    if includes availableLanguages lang then (true, Some lang)
    else (false, found).

Definition presetLanguage (availableLanguages priorities : list string)
  : Result string :=
  let (_, found) :=
    array_some (presetLanguage_callback availableLanguages) priorities None in
  if truthy_opt found then
    match found with
    | Some lang => Ok lang
    | None => Throw NoMatchError
    end
  else Throw NoMatchError.

(** ** The monad of the methods *)

(** State and exceptions: a computation maps the state to its result and
    the state it leaves; a thrown error skips the rest but keeps the
    state. *)
Definition M (S A : Type) : Type := S -> Result A * S.

Definition ret {S A : Type} (a : A) : M S A := fun st => (Ok a, st).

Definition throw {S A : Type} (e : Error) : M S A := fun st => (Throw e, st).

Definition bind {S A B : Type} (m : M S A) (k : A -> M S B) : M S B :=
  fun st =>
    match m st with
    | (Ok a, st') => k a st'
    | (Throw e, st') => (Throw e, st')
    end.

Declare Scope langer_scope.
Delimit Scope langer_scope with langer.
Notation "x <- m ;; k" := (bind m (fun x => k))
  (at level 100, m at next level, right associativity) : langer_scope.
Notation "m ;; k" := (bind m (fun _ => k))
  (at level 100, right associativity) : langer_scope.

(** ** The host environment *)

(** What the code reads from and writes to outside the instance: the
    browser's [localStorage] and [navigator.languages].  [setItem] may
    throw (a full or disabled storage does).  The world type is left open
    so that an injected recorder can keep a store of its own. *)
Class Host (W : Type) : Type := {
  localStorage_getItem : string -> W -> option string;
  localStorage_setItem : string -> string -> W -> Result unit * W;
  navigator_languages : W -> list string
}.

Section Machine.

Context {W : Type} {host : Host W}.

Local Open Scope langer_scope.

(** A call into a collaborator: it may change the world and either returns
    or throws. *)
Definition Effect (A : Type) : Type := W -> Result A * W.

Record Recorder : Type := {
  get : Effect (option string);
  set : string -> Effect unit
}.

Inductive Preset : Type :=
| PresetKey (key : string)
| PresetFn (resolver : list string -> list string -> Effect string).

Record Options : Type := {
  Options_recorder : option Recorder;
  Options_preset : option Preset
}.

Definition LOCAL_STORAGE_KEY : string := "langer-local-storage-key".

Definition recorder : Recorder := {|
  get := fun w => (Ok (localStorage_getItem LOCAL_STORAGE_KEY w), w);
  set := fun lang w => localStorage_setItem LOCAL_STORAGE_KEY lang w
|}.

Definition getDefOptions : Recorder * Preset :=
  (recorder, PresetFn (fun avail navs w => (presetLanguage avail navs, w))).

(** [defaults(options, getDefOptions())]: a missing option takes the
    default. *)
Definition defaults (options : option Options) : Recorder * Preset :=
  let (def_recorder, def_preset) := getDefOptions in
  match options with
  | None => (def_recorder, def_preset)
  | Some o =>
      (match Options_recorder o with Some r => r | None => def_recorder end,
       match Options_preset o with Some p => p | None => def_preset end)
  end.

(** The fields of the class; [None] and [VUndefined] stand for
    [undefined]. *)
Record Langer : Type := {
  _says : Value;
  _data : option Dictionary;
  _availableLanguages : option (list string);
  _currLanguage : option string;
  _recorder : option Recorder;
  _preset : option Preset;
  _initialized : bool;
  _disposed : bool
}.

Definition initialized (l : Langer) : bool := _initialized l.
Definition disposed (l : Langer) : bool := _disposed l.

Definition constructor (options : option Options) : Langer :=
  let (r, p) := defaults options in
  {| _says := VUndefined; _data := None; _availableLanguages := None;
     _currLanguage := None; _recorder := Some r; _preset := Some p;
     _initialized := false; _disposed := false |}.

(** Field assignments. *)
Definition setSays (value : Value) (l : Langer) : Langer :=
  {| _says := value; _data := _data l;
     _availableLanguages := _availableLanguages l;
     _currLanguage := _currLanguage l; _recorder := _recorder l;
     _preset := _preset l; _initialized := _initialized l;
     _disposed := _disposed l |}.

Definition setData (value : option Dictionary) (l : Langer) : Langer :=
  {| _says := _says l; _data := value;
     _availableLanguages := _availableLanguages l;
     _currLanguage := _currLanguage l; _recorder := _recorder l;
     _preset := _preset l; _initialized := _initialized l;
     _disposed := _disposed l |}.

Definition setAvailableLanguages (value : option (list string)) (l : Langer)
  : Langer :=
  {| _says := _says l; _data := _data l; _availableLanguages := value;
     _currLanguage := _currLanguage l; _recorder := _recorder l;
     _preset := _preset l; _initialized := _initialized l;
     _disposed := _disposed l |}.

Definition setCurrLanguage (value : option string) (l : Langer) : Langer :=
  {| _says := _says l; _data := _data l;
     _availableLanguages := _availableLanguages l;
     _currLanguage := value; _recorder := _recorder l;
     _preset := _preset l; _initialized := _initialized l;
     _disposed := _disposed l |}.

Definition setInitialized (l : Langer) : Langer :=
  {| _says := _says l; _data := _data l;
     _availableLanguages := _availableLanguages l;
     _currLanguage := _currLanguage l; _recorder := _recorder l;
     _preset := _preset l; _initialized := true;
     _disposed := _disposed l |}.

Definition State : Type := Langer * W.

Definition this : M State Langer := fun st => (Ok (fst st), st).

Definition assign (f : Langer -> Langer) : M State unit :=
  fun st => (Ok tt, (f (fst st), snd st)).

Definition await {A : Type} (c : Effect A) : M State A :=
  fun st => let (r, w) := c (snd st) in (r, (fst st, w)).

(** ** The methods of [Langer] *)


(** [this._recorder.get()] and [this._recorder.set(lang)]: a call on the
    released ([undefined]) recorder is a runtime [TypeError]. *)
Definition recorder_get : M State (option string) :=
  self <- this ;;
  match _recorder self with
  | Some r => await (get r)
  | None => throw TypeError
  end.

Definition recorder_set (lang : string) : M State unit :=
  self <- this ;;
  match _recorder self with
  | Some r => await (set r lang)
  | None => throw TypeError
  end.

(** [this._data[language]]. *)
Definition data_lookup (language : string) : M State Value :=
  self <- this ;;
  match _data self with
  | Some d => ret (get_prop d language)
  | None => throw TypeError
  end.

Definition changeSays (language : string) : M State unit :=
  assign (setCurrLanguage (Some language)) ;;
  recorder_set language ;;
  value <- data_lookup language ;;
  assign (setSays value).

(** The preset policy of [resetLanguage]: a fixed key, or the resolver
    applied to the available languages and [navigator.languages]. *)
Definition resolve_preset (langs : list string) : M State string :=
  self <- this ;;
  match _preset self with
  | Some (PresetKey key) => ret key
  | Some (PresetFn resolver) =>
      await (fun w => resolver langs (navigator_languages w) w)
  | None => throw TypeError
  end.

Definition resetLanguage : M State string :=
  self <- this ;;
  match _availableLanguages self with
  | None => throw NotReadyError
  | Some langs =>
      lang <- resolve_preset langs ;;
      self <- this ;;
      match _availableLanguages self with
      | None => throw TypeError
      | Some langs =>
          if includes langs lang then
            changeSays lang ;;
            ret lang
          else throw (PresetUnavailableError lang langs)
      end
  end.

Definition internalUpdate (data : Dictionary) (reset : bool) : M State unit :=
  assign (setData (Some data)) ;;
  let langs := Object_keys data in
  if (length langs =? 0)%nat then throw EmptyDictionaryError
  else
    assign (setAvailableLanguages (Some langs)) ;;
    if reset then
      resetLanguage ;;
      ret tt
    else
      self <- this ;;
      lang <- (if truthy_opt (_currLanguage self)
               then ret (_currLanguage self)
               else recorder_get) ;;
      match lang with
      | Some l =>
          if truthy_string l then changeSays l
          else (resetLanguage ;; ret tt)
      | None => resetLanguage ;; ret tt
      end.

(** [initialize] and [update] return [this]; the instance is the state, so
    the embedding returns [tt]. *)
Definition initialize (data : Dictionary) (reset : bool) : M State unit :=
  self <- this ;;
  if _initialized self then throw AlreadyInitializedError
  else
    internalUpdate data reset ;;
    assign setInitialized.

Definition update (data : Dictionary) (reset : bool) : M State unit :=
  self <- this ;;
  if negb (_initialized self) || _disposed self then throw NotReadyError
  else internalUpdate data reset.

Definition speak (language : string) : M State unit :=
  self <- this ;;
  match _availableLanguages self with
  | None => throw NotReadyError
  | Some langs =>
      if includes langs language then changeSays language
      else throw (LanguageUnavailableError language langs)
  end.

Definition dispose : M State unit :=
  self <- this ;;
  if _disposed self then throw AlreadyDisposedError
  else
    assign (fun l =>
      {| _says := VUndefined; _data := None; _availableLanguages := None;
         _currLanguage := None; _recorder := None; _preset := None;
         _initialized := _initialized l; _disposed := true |}).

(** The three getters; they read the instance only. *)
Definition availableLanguages (l : Langer) : Result (list string) :=
  match _availableLanguages l with
  | Some langs => Ok langs
  | None => Throw NotReadyError
  end.

Definition speaking (l : Langer) : Result string :=
  match _currLanguage l with
  | Some lang => if truthy_string lang then Ok lang else Throw NotReadyError
  | None => Throw NotReadyError
  end.

Definition says (l : Langer) : Result Value :=
  if truthy (_says l) then Ok (_says l) else Throw NotReadyError.

(** *** Sequences of calls *)

Inductive Op : Type :=
| OpInitialize (data : Dictionary) (reset : bool)
| OpUpdate (data : Dictionary) (reset : bool)
| OpSpeak (language : string)
| OpResetLanguage
| OpDispose.

(** Whether the call returned, and with which error it threw otherwise. *)
Definition outcome {A : Type} (r : Result A) : Result unit :=
  match r with
  | Ok _ => Ok tt
  | Throw e => Throw e
  end.

Definition run_op (op : Op) : M State unit :=
  match op with
  | OpInitialize data reset => initialize data reset
  | OpUpdate data reset => update data reset
  | OpSpeak language => speak language
  | OpResetLanguage => fun st => let (r, st') := resetLanguage st in (outcome r, st')
  | OpDispose => dispose
  end.

(** The caller goes on whatever a call did: a rejected promise is caught
    and the instance keeps the state the call left.  Between two calls the
    host world may have changed, so each call is given its own.
    [steps l l'] : some sequence of calls leads from [l] to [l']. *)
Inductive steps : Langer -> Langer -> Prop :=
| steps_refl (l : Langer) : steps l l
| steps_call (l l' : Langer) (op : Op) (w : W) :
    steps l l' -> steps l (fst (snd (run_op op (l', w)))).

(** The states an instance can be in: built by the constructor, then
    driven by any sequence of calls. *)
Definition reachable (l : Langer) : Prop :=
  exists options : option Options, steps (constructor options) l.

End Machine.

Arguments Effect W A : clear implicits.
Arguments Recorder W : clear implicits.
Arguments Preset W : clear implicits.
Arguments Options W : clear implicits.
Arguments Langer W : clear implicits.
Arguments State W : clear implicits.

(** ** A concrete host: the browser *)

(** [localStorage] as a finite map from keys to strings, whether it
    accepts writes, and the list [navigator.languages]. *)
Record Browser : Type := {
  storage : gmap string string;
  writable : bool;
  languages : list string
}.

#[export] Instance Browser_Host : Host Browser := {|
  localStorage_getItem := fun key b => storage b !! key;
  localStorage_setItem := fun key value b =>
    if writable b then
      (Ok tt, {| storage := <[key := value]> (storage b);
                 writable := true; languages := languages b |})
    else (Throw (HostError "QuotaExceededError"), b);
  navigator_languages := languages
|}.

(** The dictionaries and the preferences of the repository's test
    suite (payloads cut down to two entries). *)
Definition fetched : Dictionary :=
  [ ("en", VObj [("confirm", VStr "Confirm"); ("cancel", VStr "Cancel")]);
    ("zh", VObj [("confirm", VStr "queren"); ("cancel", VStr "quxiao")]) ].

Definition updated : Dictionary :=
  [ ("en", VObj [("confirm", VStr "Confirm"); ("enter", VStr "Enter")]);
    ("zh", VObj [("confirm", VStr "queren"); ("enter", VStr "jinru")]);
    ("ja", VObj [("confirm", VStr "kakunin"); ("enter", VStr "nyuryoku")]) ].

Definition priorities : list string := ["en-US"; "en"; "zh-TW"; "zh"].

(** [clearSaved()] of the test helper: nothing is remembered. *)
Definition clearSaved : Browser :=
  {| storage := ∅; writable := true; languages := priorities |}.

(** [presetSaved(lang)] of the test helper: [lang] is remembered. *)
Definition presetSaved (lang : string) : Browser :=
  {| storage := {[ LOCAL_STORAGE_KEY := lang ]}; writable := true;
     languages := priorities |}.

(** The same browser once its storage refuses writes. *)
Definition storage_full (b : Browser) : Browser :=
  {| storage := storage b; writable := false; languages := languages b |}.

(** Running a call from a state and keeping the instance it leaves. *)
Definition after {W A : Type} (m : M (State W) A) (l : Langer W) (w : W)
  : Langer W := fst (snd (m (l, w))).
Definition world_after {W A : Type} (m : M (State W) A) (l : Langer W) (w : W)
  : W := snd (snd (m (l, w))).
Definition result_of {W A : Type} (m : M (State W) A) (l : Langer W) (w : W)
  : Result A := fst (m (l, w)).

(** *** Scenarios *)

(** [new Langer().initialize(fetched)] with nothing remembered, which
    presets en; and with zh remembered. *)
Definition langer_en : Langer Browser :=
  after (initialize fetched false) (constructor None) clearSaved.

Definition langer_zh : Langer Browser :=
  after (initialize fetched false) (constructor None) (presetSaved "zh").

(** The world [langer_en] leaves: en is remembered. *)
Definition browser_en : Browser :=
  world_after (initialize fetched false) (constructor None) clearSaved.

(** [new Langer({ preset: 'ja' })] of the test suite. *)
Definition preset_ja : option (Options Browser) :=
  Some {| Options_recorder := None; Options_preset := Some (PresetKey "ja") |}.

(** That instance once its [initialize(fetched)] has thrown. *)
Definition langer_ja : Langer Browser :=
  after (initialize fetched false) (constructor preset_ja) clearSaved.

(** A dictionary that has lost zh. *)
Definition only_en : Dictionary :=
  [ ("en", VObj [("confirm", VStr "Confirm"); ("cancel", VStr "Cancel")]) ].

(** A dictionary whose one key is the name of a member every plain object
    inherits, and the instance preset to that key. *)
Definition keyed_constructor : Dictionary :=
  [ ("constructor", VObj [("confirm", VStr "Confirm")]) ].

Definition preset_constructor : option (Options Browser) :=
  Some {| Options_recorder := None;
          Options_preset := Some (PresetKey "constructor") |}.

Definition langer_constructor : Langer Browser :=
  after (initialize keyed_constructor false)
    (constructor preset_constructor) clearSaved.

(** A dictionary whose only payload is the empty string. *)
Definition blank : Dictionary := [ ("en", VStr EmptyString) ].

Definition langer_blank : Langer Browser :=
  after (initialize blank false) (constructor None) clearSaved.

(** ** Notions used to state the properties *)

(** What the specification says of one preference: it matches with key [k]
    when it is an available key itself ([k] is the preference), or else
    when its text before the first dash is one ([k] is that text). *)
Definition matches (avail : list string) (p k : string) : Prop :=
  (In p avail /\ k = p) \/
  (~ In p avail /\ In (split_first "-"%char p) avail
   /\ k = split_first "-"%char p).

Definition unmatched (avail : list string) (p : string) : Prop :=
  ~ In p avail /\ ~ In (split_first "-"%char p) avail.

(** [k] is the key of the first preference, in order, that matches. *)
Definition first_match (avail prefs : list string) (k : string) : Prop :=
  exists before p rest,
    prefs = before ++ p :: rest /\ Forall (unmatched avail) before
    /\ matches avail p k.

Section Notions.

Context {W : Type} {host : Host W}.

(** The fields a language switch never touches. *)
Definition same_config (l l' : Langer W) : Prop :=
  _recorder l' = _recorder l /\ _preset l' = _preset l
  /\ _initialized l' = _initialized l /\ _disposed l' = _disposed l.

Definition same_dictionary (l l' : Langer W) : Prop :=
  _data l' = _data l /\ _availableLanguages l' = _availableLanguages l.

(** The instance once it fully speaks [k] of the dictionary [d]. *)
Definition switched (d : Dictionary) (k : string) (l : Langer W) : Langer W :=
  setSays (get_prop d k) (setCurrLanguage (Some k) l).

(** The instance once [internalUpdate] has stored the dictionary [d] and
    its keys. *)
Definition loaded (d : Dictionary) (l : Langer W) : Langer W :=
  setAvailableLanguages (Some (Object_keys d)) (setData (Some d) l).

(** What the preset policy [p] resolves to on the keys [langs]. *)
Definition preset_result (p : Preset W) (langs : list string) : Effect W string :=
  fun w =>
    match p with
    | PresetKey key => (Ok key, w)
    | PresetFn resolver => resolver langs (navigator_languages w) w
    end.

(** What holds of every reachable instance: the collaborators are held
    until disposal and released by it, the available languages never come
    without a dictionary, and an initialized instance that is not disposed
    has its available languages. *)
Definition consistent (l : Langer W) : Prop :=
  (_disposed l = false ->
   exists r p, _recorder l = Some r /\ _preset l = Some p)
  /\ (_disposed l = true -> _recorder l = None /\ _preset l = None)
  /\ (forall langs, _availableLanguages l = Some langs ->
      exists d, _data l = Some d)
  /\ (_initialized l = true -> _disposed l = false ->
      exists langs, _availableLanguages l = Some langs).

(** The recorder contract of the specification: [get] returns the most
    recent value written by [set] on the same store. *)
Definition remembers (r : Recorder W) : Prop :=
  forall (lang : string) (w w' : W),
    set r lang w = (Ok tt, w') -> fst (get r w') = Ok (Some lang).

End Notions.

Section HostNotions.

Context {W : Type} {host : Host W}.

(** The preset of [getDefOptions]: [presetLanguage] as a resolver. *)
Definition default_preset : Preset W := snd getDefOptions.

End HostNotions.

(** * The driver-based [Langer]

    The other [Langer] class of the repository takes its languages and
    payloads from a driver object instead of a dictionary.  Its errors have
    messages of their own, so the module carries its own error and result
    types and its own copy of the monad; values, arrays and the host are
    shared with the class above. *)

(** The message of what a host call threw; nothing when it returned. *)
Definition thrown_message {A : Type} (r : Result A) : option string :=
  match r with
  | Ok _ => None
  | Throw e => Some (message e)
  end.

Module Driven.

Inductive Error : Type :=
| DriverNotDetectedError
| NotReadyError
| AlreadyInitializedError
| AlreadyDisposedError
| NotAnArrayError
| PresetUnavailableError (lang : string) (langs : list string)
| LanguageUnavailableError (language : string) (langs : list string)
| NoValueError (lang : string)
| NotInitializedError
| NoMatchError
| TypeError
| HostError (msg : string).

Definition message (e : Error) : string :=
  match e with
  | DriverNotDetectedError => "[langer] Driver not detected."
  | NotReadyError =>
      "[langer] Invalid operation. Not initialized yet, failed to initialize or has been disposed."
  | AlreadyInitializedError =>
      "[langer] Invalid operation. This has been initialized."
  | AlreadyDisposedError =>
      "[langer] Invalid operation. This has been disposed."
  | NotAnArrayError =>
      "[langer] The " ++ dquote ++ "onAvailableLanguages" ++ dquote
      ++ " owned by the driver needs to return an array of available languages."
  | PresetUnavailableError lang langs =>
      "[langer] The preset language " ++ dquote ++ lang ++ dquote
      ++ " is not on the available languages(" ++ join_comma langs ++ ")."
  | LanguageUnavailableError language langs =>
      "[langer] Can not find the " ++ dquote ++ language ++ dquote
      ++ " language among the available languages("
      ++ join_comma langs ++ ")."
  | NoValueError lang =>
      "[langer] The onSpeakingChange(" ++ lang
      ++ ") of the driver must return a value."
  | NotInitializedError =>
      "[langer] Invalid operation. Not initialized yet."
  | NoMatchError => "[langer] Cannot preset language."
  | TypeError => "TypeError"
  | HostError msg => msg
  end.

Inductive Result (A : Type) : Type :=
| Ok (a : A)
| Throw (e : Error).
Arguments Ok {A} a.
Arguments Throw {A} e.

Definition M (S A : Type) : Type := S -> Result A * S.

Definition ret {S A : Type} (a : A) : M S A := fun st => (Ok a, st).

Definition throw {S A : Type} (e : Error) : M S A := fun st => (Throw e, st).

Definition bind {S A B : Type} (m : M S A) (k : A -> M S B) : M S B :=
  fun st =>
    match m st with
    | (Ok a, st') => k a st'
    | (Throw e, st') => (Throw e, st')
    end.

Declare Scope driven_scope.
Delimit Scope driven_scope with driven.
Notation "x <- m ;; k" := (bind m (fun x => k))
  (at level 100, m at next level, right associativity) : driven_scope.
Notation "m ;; k" := (bind m (fun _ => k))
  (at level 100, right associativity) : driven_scope.

(** The same loop and callback as in the class above; only the message of
    the error differs. *)
Definition presetLanguage (availableLanguages priorities : list string)
  : Result string :=
  let (_, found) :=
    array_some (presetLanguage_callback availableLanguages) priorities None in
  if truthy_opt found then
    match found with
    | Some lang => Ok lang
    | None => Throw NoMatchError
    end
  else Throw NoMatchError.

(** What a driver handed back for the available languages: the run-time
    test [Array.isArray] tells an array from anything else. *)
Inductive JsLangs : Type :=
| LangArray (langs : list string)
| NotArray.

Section Machine.

Context {W : Type} {host : Host W}.

Local Open Scope driven_scope.

Definition Effect (A : Type) : Type := W -> Result A * W.

Record DriverInterface : Type := {
  onAvailableLanguages : Effect JsLangs;
  onPresetLanguage : list string -> Effect string;
  onSpeakingChange : string -> Effect Value
}.

Record Recorder : Type := {
  get : Effect (option string);
  set : string -> Effect unit
}.

Record Options : Type := {
  Options_driver : option DriverInterface;
  Options_recorder : option Recorder
}.

(** [localStorage.setItem] throws the host's error, kept by its
    message. *)
Definition defaultRecorder : Recorder := {|
  get := fun w => (Ok (localStorage_getItem LOCAL_STORAGE_KEY w), w);
  set := fun lang w =>
    let (r, w') := localStorage_setItem LOCAL_STORAGE_KEY lang w in
    match thrown_message r with
    | None => (Ok tt, w')
    | Some msg => (Throw (HostError msg), w')
    end
|}.

(** [defaults(options, { recorder: defaultRecorder })]. *)
Definition defaults (options : option Options)
  : option DriverInterface * Recorder :=
  match options with
  | None => (None, defaultRecorder)
  | Some o =>
      (Options_driver o,
       match Options_recorder o with Some r => r | None => defaultRecorder end)
  end.

Record Langer : Type := {
  _driver : option DriverInterface;
  _recorder : option Recorder;
  _availableLanguages : option (list string);
  _says : Value;
  _currLanguage : option string;
  _initialized : bool;
  _disposed : bool
}.

Definition initialized (l : Langer) : bool := _initialized l.
Definition disposed (l : Langer) : bool := _disposed l.

Definition constructor (options : option Options) : Langer :=
  let (d, r) := defaults options in
  {| _driver := d; _recorder := Some r; _availableLanguages := None;
     _says := VUndefined; _currLanguage := None;
     _initialized := false; _disposed := false |}.

Definition setDriver (value : option DriverInterface) (l : Langer) : Langer :=
  {| _driver := value; _recorder := _recorder l;
     _availableLanguages := _availableLanguages l; _says := _says l;
     _currLanguage := _currLanguage l; _initialized := _initialized l;
     _disposed := _disposed l |}.

Definition setAvailableLanguages (value : option (list string)) (l : Langer)
  : Langer :=
  {| _driver := _driver l; _recorder := _recorder l;
     _availableLanguages := value; _says := _says l;
     _currLanguage := _currLanguage l; _initialized := _initialized l;
     _disposed := _disposed l |}.

Definition setSays (value : Value) (l : Langer) : Langer :=
  {| _driver := _driver l; _recorder := _recorder l;
     _availableLanguages := _availableLanguages l; _says := value;
     _currLanguage := _currLanguage l; _initialized := _initialized l;
     _disposed := _disposed l |}.

Definition setCurrLanguage (value : option string) (l : Langer) : Langer :=
  {| _driver := _driver l; _recorder := _recorder l;
     _availableLanguages := _availableLanguages l; _says := _says l;
     _currLanguage := value; _initialized := _initialized l;
     _disposed := _disposed l |}.

Definition setInitialized (l : Langer) : Langer :=
  {| _driver := _driver l; _recorder := _recorder l;
     _availableLanguages := _availableLanguages l; _says := _says l;
     _currLanguage := _currLanguage l; _initialized := true;
     _disposed := _disposed l |}.

Definition State : Type := Langer * W.

Definition this : M State Langer := fun st => (Ok (fst st), st).

Definition assign (f : Langer -> Langer) : M State unit :=
  fun st => (Ok tt, (f (fst st), snd st)).

Definition await {A : Type} (c : Effect A) : M State A :=
  fun st => let (r, w) := c (snd st) in (r, (fst st, w)).

(** Reading a getter of [this] inside a method: its error is thrown. *)
Definition read {A : Type} (getter : Langer -> Result A) : M State A :=
  fun st => (getter (fst st), st).

(** The getters. *)
Definition driver (l : Langer) : Result DriverInterface :=
  match _driver l with
  | Some d => Ok d
  | None => Throw DriverNotDetectedError
  end.

Definition availableLanguages (l : Langer) : Result (list string) :=
  match _availableLanguages l with
  | Some langs => Ok langs
  | None => Throw NotReadyError
  end.

Definition says (l : Langer) : Result Value :=
  if truthy (_says l) then Ok (_says l) else Throw NotReadyError.

Definition speaking (l : Langer) : Result string :=
  match _currLanguage l with
  | Some lang => if truthy_string lang then Ok lang else Throw NotReadyError
  | None => Throw NotReadyError
  end.

Definition setRecord (Language : string) : M State unit :=
  self <- this ;;
  match _recorder self with
  | Some r => await (set r Language)
  | None => throw TypeError
  end.

Definition getRecord : M State (option string) :=
  self <- this ;;
  match _recorder self with
  | Some r => await (get r)
  | None => throw TypeError
  end.

(** The protected methods that wrap the driver's three functions. *)
Definition Langer_onAvailableLanguages : M State (list string) :=
  d <- read driver ;;
  langs <- await (onAvailableLanguages d) ;;
  match langs with
  | LangArray langs => ret langs
  | NotArray => throw NotAnArrayError
  end.

Definition isAvailable (Language : string) : M State bool :=
  langs <- read availableLanguages ;;
  ret (includes langs Language).

Definition Langer_onPresetLanguage : M State string :=
  langs <- read availableLanguages ;;
  d <- read driver ;;
  lang <- await (onPresetLanguage d langs) ;;
  available <- isAvailable lang ;;
  if negb available then throw (PresetUnavailableError lang langs)
  else ret lang.

Definition Langer_onSpeakingChange (lang : string) : M State Value :=
  d <- read driver ;;
  says <- await (onSpeakingChange d lang) ;;
  if negb (truthy says) then throw (NoValueError lang)
  else ret says.

Definition speak (language : string) : M State unit :=
  langs <- read availableLanguages ;;
  if negb (includes langs language)
  then throw (LanguageUnavailableError language langs)
  else
    value <- Langer_onSpeakingChange language ;;
    assign (setSays value) ;;
    setRecord language ;;
    assign (setCurrLanguage (Some language)).

(** [lang !== currLanguage] for a string and a string-or-undefined. *)
Definition differs (lang : string) (currLanguage : option string) : bool :=
  match currLanguage with
  | Some curr => negb (String.eqb lang curr)
  | None => true
  end.

Definition restore : M State string :=
  self <- this ;;
  let currLanguage := _currLanguage self in
  lang <- Langer_onPresetLanguage ;;
  (if differs lang currLanguage then speak lang else ret tt) ;;
  ret lang.

Definition boost (restore' : bool) : M State unit :=
  self <- this ;;
  if _disposed self then throw AlreadyDisposedError
  else
    langs <- Langer_onAvailableLanguages ;;
    assign (setAvailableLanguages (Some langs)) ;;
    lang <- (if negb restore' then getRecord else ret None) ;;
    if restore' || negb (truthy_opt lang) then
      restore ;;
      ret tt
    else
      match lang with
      | Some lang => speak lang
      | None => ret tt
      end.

(** [if (driver) this._driver = driver]. *)
Definition adopt (driver' : option DriverInterface) : M State unit :=
  match driver' with
  | Some d => assign (setDriver (Some d))
  | None => ret tt
  end.

Definition initialize (restore' : bool) (driver' : option DriverInterface)
  : M State unit :=
  self <- this ;;
  if negb (_disposed self) && _initialized self
  then throw AlreadyInitializedError
  else
    adopt driver' ;;
    boost restore' ;;
    assign setInitialized.

Definition reset (driver' : option DriverInterface) (restore' : bool)
  : M State unit :=
  self <- this ;;
  if negb (_initialized self) then throw NotInitializedError
  else
    adopt driver' ;;
    boost restore'.

Definition dispose : M State unit :=
  self <- this ;;
  if _disposed self then throw AlreadyDisposedError
  else
    assign (fun l =>
      {| _driver := None; _recorder := None; _availableLanguages := None;
         _says := VUndefined; _currLanguage := None;
         _initialized := _initialized l; _disposed := true |}).

(** *** Sequences of calls *)

Inductive Op : Type :=
| OpInitialize (restore' : bool) (driver' : option DriverInterface)
| OpReset (driver' : option DriverInterface) (restore' : bool)
| OpRestore
| OpSpeak (language : string)
| OpDispose.

Definition outcome {A : Type} (r : Result A) : Result unit :=
  match r with
  | Ok _ => Ok tt
  | Throw e => Throw e
  end.

Definition run_op (op : Op) : M State unit :=
  match op with
  | OpInitialize restore' driver' => initialize restore' driver'
  | OpReset driver' restore' => reset driver' restore'
  | OpRestore => fun st => let (r, st') := restore st in (outcome r, st')
  | OpSpeak language => speak language
  | OpDispose => dispose
  end.

Inductive steps : Langer -> Langer -> Prop :=
| steps_refl (l : Langer) : steps l l
| steps_call (l l' : Langer) (op : Op) (w : W) :
    steps l l' -> steps l (fst (snd (run_op op (l', w)))).

Definition reachable (l : Langer) : Prop :=
  exists options : option Options, steps (constructor options) l.

(** *** The two drivers of the repository *)

(** [Driver01] keeps a dictionary and the preferences; [undefined] fields
    are those of a disposed driver. *)
Record Driver01 : Type := {
  Driver01_data : option Dictionary;
  Driver01_priorities : option (list string)
}.

(** [new Driver01(data, priorities)]; the preferences default to
    [navigator.languages] as it is when the driver is built. *)
Definition Driver01_constructor (data : Dictionary)
    (priorities : option (list string)) (w : W) : Driver01 :=
  {| Driver01_data := Some data;
     Driver01_priorities :=
       Some (match priorities with
             | Some ps => ps
             | None => navigator_languages w
             end) |}.

Definition Driver01_update (data : Dictionary) (d : Driver01) : Driver01 :=
  {| Driver01_data := Some data;
     Driver01_priorities := Driver01_priorities d |}.

Definition Driver01_onAvailableLanguages (d : Driver01) : Result JsLangs :=
  match Driver01_data d with
  | Some data => Ok (LangArray (Object_keys data))
  | None => Throw TypeError
  end.

Definition Driver01_onPresetLanguage (d : Driver01)
    (availableLanguages : list string) : Result string :=
  match Driver01_priorities d with
  | Some priorities => presetLanguage availableLanguages priorities
  | None => Throw TypeError
  end.

Definition Driver01_onSpeakingChange (d : Driver01) (Language : string)
  : Result Value :=
  match Driver01_data d with
  | Some data => Ok (get_prop data Language)
  | None => Throw TypeError
  end.

Definition Driver01_dispose (d : Driver01) : Driver01 :=
  {| Driver01_data := None; Driver01_priorities := None |}.

(** The driver object lives in the world; the instance holds a reference
    to it, here the function that reads it. *)
Definition Driver01_interface (deref : W -> Driver01) : DriverInterface := {|
  onAvailableLanguages := fun w => (Driver01_onAvailableLanguages (deref w), w);
  onPresetLanguage := fun langs w =>
    (Driver01_onPresetLanguage (deref w) langs, w);
  onSpeakingChange := fun lang w =>
    (Driver01_onSpeakingChange (deref w) lang, w)
|}.

(** [Driver02] keeps the list of languages, a function from a language to
    its payload, and the preferences. *)
Record Driver02 : Type := {
  Driver02_availableLanguages : option (list string);
  Driver02_onSpeakingChange_fn : option (string -> Value);
  Driver02_priorities : option (list string)
}.

Definition Driver02_constructor (availableLanguages : list string)
    (onSpeakingChange' : string -> Value)
    (priorities : option (list string)) (w : W) : Driver02 :=
  {| Driver02_availableLanguages := Some availableLanguages;
     Driver02_onSpeakingChange_fn := Some onSpeakingChange';
     Driver02_priorities :=
       Some (match priorities with
             | Some ps => ps
             | None => navigator_languages w
             end) |}.

Definition Driver02_update (availableLanguages : list string)
    (onSpeakingChange' : string -> Value) (d : Driver02) : Driver02 :=
  {| Driver02_availableLanguages := Some availableLanguages;
     Driver02_onSpeakingChange_fn := Some onSpeakingChange';
     Driver02_priorities := Driver02_priorities d |}.

(** A disposed [Driver02] hands back [undefined], which is not an array. *)
Definition Driver02_onAvailableLanguages (d : Driver02) : Result JsLangs :=
  match Driver02_availableLanguages d with
  | Some langs => Ok (LangArray langs)
  | None => Ok NotArray
  end.

Definition Driver02_onPresetLanguage (d : Driver02)
    (availableLanguages : list string) : Result string :=
  match Driver02_priorities d with
  | Some priorities => presetLanguage availableLanguages priorities
  | None => Throw TypeError
  end.

Definition Driver02_onSpeakingChange (d : Driver02) (Language : string)
  : Result Value :=
  match Driver02_onSpeakingChange_fn d with
  | Some f => Ok (f Language)
  | None => Throw TypeError
  end.

Definition Driver02_dispose (d : Driver02) : Driver02 :=
  {| Driver02_availableLanguages := None;
     Driver02_onSpeakingChange_fn := None;
     Driver02_priorities := None |}.

Definition Driver02_interface (deref : W -> Driver02) : DriverInterface := {|
  onAvailableLanguages := fun w => (Driver02_onAvailableLanguages (deref w), w);
  onPresetLanguage := fun langs w =>
    (Driver02_onPresetLanguage (deref w) langs, w);
  onSpeakingChange := fun lang w =>
    (Driver02_onSpeakingChange (deref w) lang, w)
|}.

End Machine.

Arguments Effect W A : clear implicits.
Arguments DriverInterface W : clear implicits.
Arguments Recorder W : clear implicits.
Arguments Options W : clear implicits.
Arguments Langer W : clear implicits.
Arguments State W : clear implicits.
Arguments Op W : clear implicits.

End Driven.

(** ** Notions for the driver-based class *)

Section DrivenNotions.

Context {W : Type} {host : Host W}.

(** What holds of every reachable driver-based instance: a current
    language comes with a truthy payload; a disposed instance holds
    nothing but, possibly, a driver; an initialized instance that is not
    disposed has its available languages and a current language. *)
Definition driven_consistent (l : Driven.Langer W) : Prop :=
  (forall k, Driven._currLanguage l = Some k ->
             truthy (Driven._says l) = true)
  /\ (Driven._disposed l = true ->
      Driven._recorder l = None /\ Driven._availableLanguages l = None
      /\ Driven._currLanguage l = None /\ Driven._says l = VUndefined)
  /\ (Driven._initialized l = true -> Driven._disposed l = false ->
      (exists langs, Driven._availableLanguages l = Some langs)
      /\ (exists k, Driven._currLanguage l = Some k)).

(** The fields no call but [dispose] and no call with a driver argument
    changes. *)
Definition driven_same_config (l l' : Driven.Langer W) : Prop :=
  Driven._driver l' = Driven._driver l
  /\ Driven._recorder l' = Driven._recorder l
  /\ Driven._initialized l' = Driven._initialized l
  /\ Driven._disposed l' = Driven._disposed l.

(** What one [speak] may have done to the instance: nothing, a new truthy
    payload only (the recorder's write threw), or a new truthy payload and
    an available key as current language (it returned). *)
Definition spoke (l l' : Driven.Langer W) : Prop :=
  l' = l
  \/ (exists v, truthy v = true /\ l' = Driven.setSays v l)
  \/ (exists v k langs,
        truthy v = true /\ Driven._availableLanguages l = Some langs
        /\ In k langs
        /\ l' = Driven.setCurrLanguage (Some k) (Driven.setSays v l)).

End DrivenNotions.

(** *** A page with a [Driver01] *)

(** The browser and one [Driver01] object, which the caller may update
    while an instance holds it. *)
Record Page : Type := {
  page_browser : Browser;
  page_driver : Driven.Driver01
}.

#[export] Instance Page_Host : Host Page := {|
  localStorage_getItem := fun key p =>
    localStorage_getItem key (page_browser p);
  localStorage_setItem := fun key value p =>
    let (r, b) := localStorage_setItem key value (page_browser p) in
    (r, {| page_browser := b; page_driver := page_driver p |});
  navigator_languages := fun p => navigator_languages (page_browser p)
|}.

(** [new Driver01(fetched)] in a browser that remembers nothing. *)
Definition page_fetched : Page :=
  {| page_browser := clearSaved;
     page_driver := Driven.Driver01_constructor fetched None clearSaved |}.

(** [driver.update(data)] on the page's driver. *)
Definition page_update (data : Dictionary) (p : Page) : Page :=
  {| page_browser := page_browser p;
     page_driver := Driven.Driver01_update data (page_driver p) |}.

(** [new Langer({ driver })], initialized on [page_fetched]. *)
Definition driven_options : option (Driven.Options Page) :=
  Some {| Driven.Options_driver := Some (Driven.Driver01_interface page_driver);
          Driven.Options_recorder := None |}.

Definition driven_en : Driven.Langer Page :=
  fst (snd (Driven.initialize false None
              (Driven.constructor driven_options, page_fetched))).

Definition page_en : Page :=
  snd (snd (Driven.initialize false None
              (Driven.constructor driven_options, page_fetched))).

(** [driver.dispose()] on the page's driver. *)
Definition page_dispose_driver (p : Page) : Page :=
  {| page_browser := page_browser p;
     page_driver := Driven.Driver01_dispose (page_driver p) |}.

(** The page once its browser's storage refuses writes. *)
Definition page_full (p : Page) : Page :=
  {| page_browser := storage_full (page_browser p);
     page_driver := page_driver p |}.

(** The page when the browser remembers [lang]. *)
Definition page_remembering (lang : string) : Page :=
  {| page_browser := presetSaved lang;
     page_driver := Driven.Driver01_constructor fetched None clearSaved |}.

(** The driver-based instance once [dispose()] was called. *)
Definition driven_disposed : Driven.Langer Page :=
  fst (snd (Driven.dispose (driven_en, page_en))).

(** A driver whose payload for en is the empty string. *)
Definition page_blank : Page :=
  {| page_browser := clearSaved;
     page_driver := Driven.Driver01_constructor blank None clearSaved |}.

(** * Properties *)

(** ** Arrays of strings *)

Lemma includes_In (arr : list string) (x : string) :
  includes arr x = true <-> In x arr.
Proof.
  induction arr as [|y rest IH]; simpl.
  - split; [discriminate | tauto].
  - destruct (String.eqb_spec y x) as [->|Hne].
    + split; auto.
    + rewrite IH. split; [auto | intros [Heq|Hin]; [contradiction | exact Hin]].
Qed.

Lemma includes_not_In (arr : list string) (x : string) :
  includes arr x = false <-> ~ In x arr.
Proof.
  rewrite <- includes_In. destruct (includes arr x); split; congruence.
Qed.

Lemma truthy_string_nonempty (s : string) :
  truthy_string s = true <-> s <> EmptyString.
Proof. destruct s; simpl; split; congruence. Qed.

(** ** The preset resolver *)

Lemma matches_not_unmatched avail p k :
  matches avail p k -> ~ unmatched avail p.
Proof. intros [[H _]|(_ & H & _)] [H1 H2]; contradiction. Qed.

Lemma matches_functional avail p k k' :
  matches avail p k -> matches avail p k' -> k = k'.
Proof.
  intros [[H1 ->]|(H1 & H2 & ->)] [[H3 ->]|(H3 & H4 & ->)];
    try reflexivity; contradiction.
Qed.

Lemma first_match_cons_matched avail p prefs k :
  matches avail p k -> first_match avail (p :: prefs) k.
Proof. intros H. exists [], p, prefs. repeat split; auto. Qed.

Lemma first_match_cons_unmatched avail p prefs k :
  unmatched avail p ->
  first_match avail (p :: prefs) k <-> first_match avail prefs k.
Proof.
  intros Hun. split.
  - intros (before & q & rest & Heq & Hall & Hm).
    destruct before as [|b before]; simpl in Heq; inversion Heq; subst.
    + exfalso. eapply matches_not_unmatched; eauto.
    + inversion Hall; subst. exists before, q, rest. auto.
  - intros (before & q & rest & -> & Hall & Hm).
    exists (p :: before), q, rest. repeat split; auto.
Qed.

Lemma first_match_functional avail prefs k k' :
  first_match avail prefs k -> first_match avail prefs k' -> k = k'.
Proof.
  induction prefs as [|p prefs IH]; intros H H'.
  - destruct H as (before & q & rest & Heq & _). destruct before; discriminate.
  - destruct (includes avail p) eqn:Hp.
    + apply includes_In in Hp.
      assert (Hm : forall x, first_match avail (p :: prefs) x -> x = p).
      { intros x (before & q & rest & Heq & Hall & Hq).
        destruct before as [|b before]; simpl in Heq; inversion Heq; subst.
        - destruct Hq as [[_ ->]|(Hn & _)]; [reflexivity | contradiction].
        - inversion Hall as [|? ? [Hn _] ?]; subst. contradiction. }
      rewrite (Hm _ H), (Hm _ H'). reflexivity.
    + apply includes_not_In in Hp.
      destruct (includes avail (split_first "-"%char p)) eqn:Hs.
      * apply includes_In in Hs.
        assert (Hm : forall x, first_match avail (p :: prefs) x ->
                               x = split_first "-"%char p).
        { intros x (before & q & rest & Heq & Hall & Hq).
          destruct before as [|b before]; simpl in Heq; inversion Heq; subst.
          - destruct Hq as [[Hin _]|(_ & _ & ->)]; [contradiction | reflexivity].
          - inversion Hall as [|? ? [_ Hn] ?]; subst. contradiction. }
        rewrite (Hm _ H), (Hm _ H'). reflexivity.
      * apply includes_not_In in Hs.
        assert (Hun : unmatched avail p) by (split; assumption).
        apply IH; eapply first_match_cons_unmatched; eauto.
Qed.

Lemma first_match_none avail prefs k :
  Forall (unmatched avail) prefs -> ~ first_match avail prefs k.
Proof.
  intros Hall (before & p & rest & -> & _ & Hm).
  apply Forall_app in Hall as [_ Hall]. inversion Hall; subst.
  eapply matches_not_unmatched; eauto.
Qed.

(** What the loop of [presetLanguage] leaves in [found]. *)
Lemma array_some_presetLanguage avail prefs found :
  (Forall (unmatched avail) prefs /\
   array_some (presetLanguage_callback avail) prefs found = (false, found))
  \/
  (exists k, first_match avail prefs k /\
   array_some (presetLanguage_callback avail) prefs found = (true, Some k)).
Proof.
  induction prefs as [|p prefs IH]; simpl.
  - left. split; [constructor | reflexivity].
  - unfold presetLanguage_callback at 1 3.
    destruct (includes avail p) eqn:Hp.
    + right. exists p. split; [|reflexivity].
      apply first_match_cons_matched. left. split; [|reflexivity].
      apply includes_In, Hp.
    + destruct (includes avail (split_first "-"%char p)) eqn:Hs.
      * right. exists (split_first "-"%char p). split; [|reflexivity].
        apply first_match_cons_matched. right.
        repeat split; [apply includes_not_In, Hp | apply includes_In, Hs].
      * assert (Hun : unmatched avail p)
          by (split; apply includes_not_In; assumption).
        destruct IH as [[Hall Heq]|(k & Hk & Heq)].
        -- left. split; [constructor; assumption | exact Heq].
        -- right. exists k. split; [|exact Heq].
           apply first_match_cons_unmatched; assumption.
Qed.

(** C5 (as amended): [presetLanguage] is a function of the available keys
    and the preferences.  It returns the key of the first preference, in
    order, that matches (the preference itself when it is an available key,
    otherwise its text before the first dash when that is one), provided
    that key is not the empty string; it throws the no-match error, and
    nothing else, when no preference matches or when the key of the first
    match is the empty string.  On the keys en, zh it returns en for the
    preferences en-US, en, zh-TW, zh, returns zh for zh, and throws for
    ja. *)
Theorem presetLanguage_first_match (avail prefs : list string) :
  (forall k, presetLanguage avail prefs = Ok k <->
             first_match avail prefs k /\ k <> EmptyString)
  /\ (forall e, presetLanguage avail prefs = Throw e -> e = NoMatchError)
  /\ (presetLanguage avail prefs = Throw NoMatchError <->
      Forall (unmatched avail) prefs \/ first_match avail prefs EmptyString)
  /\ presetLanguage ["en"; "zh"] ["en-US"; "en"; "zh-TW"; "zh"] = Ok "en"
  /\ presetLanguage ["en"; "zh"] ["zh"] = Ok "zh"
  /\ presetLanguage ["en"; "zh"] ["ja"] = Throw NoMatchError.
Proof.
  split; [|split; [|split; [|repeat split; reflexivity]]].
  - intros k. unfold presetLanguage.
    destruct (array_some_presetLanguage avail prefs None)
      as [[Hall ->]|(k' & Hk' & ->)]; simpl.
    + split; [discriminate|]. intros [Hk _].
      exfalso. eapply first_match_none; eauto.
    + destruct (truthy_string k') eqn:Ht.
      * apply truthy_string_nonempty in Ht. split.
        -- intros [= <-]. split; assumption.
        -- intros [Hk _].
           rewrite (first_match_functional _ _ _ _ Hk' Hk). reflexivity.
      * split; [discriminate|]. intros [Hk Hne].
        rewrite <- (first_match_functional _ _ _ _ Hk' Hk) in Hne.
        apply truthy_string_nonempty in Hne. congruence.
  - intros e. unfold presetLanguage.
    destruct (array_some (presetLanguage_callback avail) prefs None)
      as [stop [k|]]; simpl; [destruct (truthy_string k)|]; congruence.
  - unfold presetLanguage.
    destruct (array_some_presetLanguage avail prefs None)
      as [[Hall ->]|(k' & Hk' & ->)]; simpl.
    + split; auto.
    + destruct k' as [|c k']; simpl.
      * split; auto.
      * split; [discriminate|]. intros [Hall|He]; exfalso.
        -- eapply first_match_none; eauto.
        -- pose proof (first_match_functional _ _ _ _ Hk' He). discriminate.
Qed.

(** C5 fails as stated: the empty string is an available key and the
    first preference matches it exactly, yet [presetLanguage] does not
    return it, it throws. *)
Lemma presetLanguage_empty_key_counterexample :
  first_match [EmptyString] [EmptyString] EmptyString
  /\ presetLanguage [EmptyString] [EmptyString] = Throw NoMatchError
  /\ presetLanguage [EmptyString] [EmptyString] <> Ok EmptyString.
Proof.
  split; [|split; [reflexivity | discriminate]].
  apply first_match_cons_matched. left. split; [left|]; reflexivity.
Qed.

(** ** More on the preset resolver *)

Lemma first_match_In avail prefs k :
  first_match avail prefs k ->
  In k avail
  /\ exists p, In p prefs /\ (k = p \/ k = split_first "-"%char p).
Proof.
  intros (before & p & rest & -> & _ & Hm).
  assert (Hp : In p (before ++ p :: rest))
    by (apply in_or_app; right; left; reflexivity).
  destruct Hm as [[Hin ->]|(_ & Hin & ->)]; split; eauto.
Qed.

Lemma presetLanguage_Ok_first_match avail prefs k :
  presetLanguage avail prefs = Ok k ->
  first_match avail prefs k /\ k <> EmptyString.
Proof.
  unfold presetLanguage.
  destruct (array_some_presetLanguage avail prefs None)
    as [[Hall ->]|(k' & Hk' & ->)]; simpl; [discriminate|].
  destruct (truthy_string k') eqn:Ht; [|discriminate].
  intros [= <-]. split; [exact Hk' | apply truthy_string_nonempty, Ht].
Qed.

Lemma presetLanguage_Throw avail prefs e :
  presetLanguage avail prefs = Throw e -> e = NoMatchError.
Proof.
  unfold presetLanguage.
  destruct (array_some (presetLanguage_callback avail) prefs None)
    as [stop [k|]]; simpl; [destruct (truthy_string k)|]; congruence.
Qed.

Lemma presetLanguage_Ok_In avail prefs k :
  presetLanguage avail prefs = Ok k -> In k avail.
Proof.
  intros H. apply presetLanguage_Ok_first_match in H as [H _].
  apply first_match_In in H. tauto.
Qed.

Lemma array_some_app {A S : Type} (cb : A -> S -> bool * S)
    (pre rest : list A) (st : S) :
  array_some cb (pre ++ rest) st =
    let (stop, st') := array_some cb pre st in
    if stop then (true, st') else array_some cb rest st'.
Proof.
  revert st. induction pre as [|x pre IH]; intros st; simpl; [reflexivity|].
  destruct (cb x st) as [[|] st']; [reflexivity | apply IH].
Qed.

Lemma array_some_unmatched avail prefs found :
  Forall (unmatched avail) prefs ->
  array_some (presetLanguage_callback avail) prefs found = (false, found).
Proof.
  intros Hall.
  destruct (array_some_presetLanguage avail prefs found)
    as [[_ Heq]|(k & Hk & _)]; [exact Heq|].
  exfalso. eapply first_match_none; eauto.
Qed.

Lemma array_some_matched avail prefs found k :
  first_match avail prefs k ->
  array_some (presetLanguage_callback avail) prefs found = (true, Some k).
Proof.
  intros Hk.
  destruct (array_some_presetLanguage avail prefs found)
    as [[Hall _]|(k' & Hk' & Heq)].
  - exfalso. eapply first_match_none; eauto.
  - rewrite (first_match_functional _ _ _ _ Hk Hk'). exact Heq.
Qed.

Lemma includes_ext (a1 a2 : list string) :
  (forall x, In x a1 <-> In x a2) ->
  forall x, includes a1 x = includes a2 x.
Proof.
  intros Hsame x.
  destruct (includes a1 x) eqn:H1; symmetry.
  - apply includes_In, Hsame, includes_In, H1.
  - apply includes_not_In. intros H2.
    apply includes_not_In in H1. apply H1, Hsame, H2.
Qed.

(** X16: whatever [presetLanguage] returns is an available key, is not the
    empty string, and is one of the preferences or the text before the
    first dash of one. *)
Theorem presetLanguage_returns_available avail prefs k :
  presetLanguage avail prefs = Ok k ->
  In k avail /\ k <> EmptyString
  /\ exists p, In p prefs /\ (k = p \/ k = split_first "-"%char p).
Proof.
  intros H. apply presetLanguage_Ok_first_match in H as [H Hne].
  apply first_match_In in H as [Hin Hp]. auto.
Qed.

(** X17: [presetLanguage] looks at the available languages only through
    [includes]: two arrays with the same elements, in any order and with
    any repetition, give the same result. *)
Theorem presetLanguage_same_keys (a1 a2 prefs : list string) :
  (forall x, In x a1 <-> In x a2) ->
  presetLanguage a1 prefs = presetLanguage a2 prefs.
Proof.
  intros Hsame. pose proof (includes_ext a1 a2 Hsame) as Hinc.
  unfold presetLanguage.
  assert (Heq : forall found,
            array_some (presetLanguage_callback a1) prefs found
            = array_some (presetLanguage_callback a2) prefs found).
  { induction prefs as [|p prefs IH]; intros found; simpl; [reflexivity|].
    unfold presetLanguage_callback at 1 3. rewrite !Hinc.
    destruct (includes a2 p); [reflexivity|].
    destruct (includes a2 (split_first "-"%char p)); [reflexivity|].
    apply IH. }
  rewrite Heq. reflexivity.
Qed.

(** X18: preferences that match nothing, neither as they are nor cut at
    the first dash, are passed over: the result is that of the preferences
    after them. *)
Theorem presetLanguage_skips_unmatched (avail pre prefs : list string) :
  Forall (unmatched avail) pre ->
  presetLanguage avail (pre ++ prefs) = presetLanguage avail prefs.
Proof.
  intros Hall. unfold presetLanguage.
  rewrite array_some_app, (array_some_unmatched avail pre None Hall).
  reflexivity.
Qed.

(** X19: the loop stops at the first preference that matches: preferences
    after it change nothing, not even when the matched key is the empty
    string and the call throws. *)
Theorem presetLanguage_stops_at_first_match (avail prefs more : list string)
    (k : string) :
  first_match avail prefs k ->
  presetLanguage avail (prefs ++ more) = presetLanguage avail prefs.
Proof.
  intros Hk. unfold presetLanguage.
  rewrite array_some_app, (array_some_matched avail prefs None k Hk).
  reflexivity.
Qed.

(** X20: with no preference at all, or with no available language,
    [presetLanguage] throws the no-match error. *)
Theorem presetLanguage_no_candidates (avail prefs : list string) :
  presetLanguage avail [] = Throw NoMatchError
  /\ presetLanguage [] prefs = Throw NoMatchError.
Proof.
  split; [reflexivity|].
  unfold presetLanguage.
  rewrite (array_some_unmatched [] prefs None); [reflexivity|].
  apply Forall_forall. intros p _. split; intros [].
Qed.

(** ** The state machine *)

Section MachineProperties.

Context {W : Type} {host : Host W}.

Implicit Types (l : Langer W) (w : W) (d data : Dictionary) (k : string).

(** Unfolding a method down to the monad's operations. *)
Ltac run :=
  unfold after, world_after, result_of, run_op, initialize, update, speak,
    dispose, internalUpdate, resetLanguage, resolve_preset, changeSays,
    data_lookup, recorder_set, recorder_get, await, assign, this, bind,
    throw, ret in *;
  simpl in *.

(** Case analysis on whatever the unfolded method branches on. *)
Ltac scrutinee x :=
  lazymatch x with
  | context [match ?y with _ => _ end] => scrutinee y
  | _ => destruct x eqn:?
  end.

Ltac branch :=
  repeat (match goal with
          | |- context [match ?x with _ => _ end] => scrutinee x
          end; simpl in *).

Lemma same_config_refl l : same_config l l.
Proof. repeat split. Qed.

Lemma same_dictionary_refl l : same_dictionary l l.
Proof. repeat split. Qed.

(** The language switch, in closed form: the current language is assigned
    first, then the recorder is written, and the payload is assigned only
    if that write returned. *)
Lemma changeSays_eq l w k (r : Recorder W) d :
  _recorder l = Some r -> _data l = Some d ->
  changeSays k (l, w) =
    match set r k w with
    | (Ok _, w') => (Ok tt, (switched d k l, w'))
    | (Throw e, w') => (Throw e, (setCurrLanguage (Some k) l, w'))
    end.
Proof.
  intros Hr Hd. run. rewrite Hr. simpl.
  destruct (set r k w) as [[[]|e] w']; simpl; [rewrite Hd|]; reflexivity.
Qed.

Lemma changeSays_frame l w k :
  same_config l (after (changeSays k) l w)
  /\ same_dictionary l (after (changeSays k) l w).
Proof. run. branch; repeat split. Qed.

Lemma resetLanguage_frame l w :
  same_config l (after resetLanguage l w)
  /\ same_dictionary l (after resetLanguage l w).
Proof. run. branch; repeat split. Qed.

Lemma speak_frame l w k :
  same_config l (after (speak k) l w)
  /\ same_dictionary l (after (speak k) l w).
Proof. run. branch; repeat split. Qed.

(** [internalUpdate] stores the dictionary before it looks at it: an empty
    one is rejected with the dictionary already replaced and nothing else
    changed; any other one also replaces the available languages, whatever
    happens next. *)
Lemma internalUpdate_empty l w reset :
  internalUpdate [] reset (l, w)
  = (Throw EmptyDictionaryError, (setData (Some []) l, w)).
Proof. reflexivity. Qed.

Lemma internalUpdate_frame l w data reset :
  same_config l (after (internalUpdate data reset) l w)
  /\ _data (after (internalUpdate data reset) l w) = Some data
  /\ (data <> [] ->
      _availableLanguages (after (internalUpdate data reset) l w)
      = Some (Object_keys data)).
Proof.
  destruct data as [|[k v] data].
  - unfold after. rewrite internalUpdate_empty. repeat split. congruence.
  - run. branch; repeat split.
Qed.

Lemma internalUpdate_Ok l w data reset :
  result_of (internalUpdate data reset) l w = Ok tt ->
  _availableLanguages (after (internalUpdate data reset) l w)
  = Some (Object_keys data).
Proof.
  intros Hok. apply internalUpdate_frame.
  intros ->. unfold result_of in Hok.
  rewrite internalUpdate_empty in Hok. discriminate.
Qed.

(** [initialize] sets the flag exactly when it returns. *)
Lemma initialize_eq l w data reset :
  initialize data reset (l, w) =
    if _initialized l then (Throw AlreadyInitializedError, (l, w))
    else match internalUpdate data reset (l, w) with
         | (Ok _, (l', w')) => (Ok tt, (setInitialized l', w'))
         | (Throw e, st') => (Throw e, st')
         end.
Proof.
  unfold initialize, bind, this, assign, throw. simpl.
  destruct (_initialized l); [reflexivity|].
  destruct (internalUpdate data reset (l, w)) as [[[]|e] [l' w']]; reflexivity.
Qed.

Lemma update_eq l w data reset :
  update data reset (l, w) =
    if negb (_initialized l) || _disposed l
    then (Throw NotReadyError, (l, w))
    else internalUpdate data reset (l, w).
Proof.
  unfold update, bind, this, throw. simpl.
  destruct (negb (_initialized l) || _disposed l); reflexivity.
Qed.

Lemma dispose_eq l w :
  dispose (l, w) =
    if _disposed l then (Throw AlreadyDisposedError, (l, w))
    else (Ok tt,
          ({| _says := VUndefined; _data := None;
              _availableLanguages := None; _currLanguage := None;
              _recorder := None; _preset := None;
              _initialized := _initialized l; _disposed := true |}, w)).
Proof.
  unfold dispose, bind, this, throw, assign. simpl.
  destruct (_disposed l); reflexivity.
Qed.

(** *** Monotone lifecycle flags *)

Lemma run_op_flags op l w :
  (_initialized l = true -> _initialized (after (run_op op) l w) = true)
  /\ (_disposed l = true -> _disposed (after (run_op op) l w) = true)
  /\ (_disposed l = false -> op <> OpDispose ->
      _disposed (after (run_op op) l w) = false).
Proof.
  destruct op as [data reset|data reset|k| |]; unfold run_op.
  - unfold after. rewrite initialize_eq.
    destruct (_initialized l) eqn:Hi; simpl; [repeat split; congruence|].
    destruct (internalUpdate_frame l w data reset) as ((_ & _ & _ & Hd) & _).
    unfold after in Hd.
    destruct (internalUpdate data reset (l, w)) as [[[]|e] [l' w']];
      simpl in *; repeat split; congruence.
  - unfold after. rewrite update_eq.
    destruct (negb (_initialized l) || _disposed l); simpl;
      [repeat split; congruence|].
    destruct (internalUpdate_frame l w data reset) as ((_ & _ & Hi & Hd) & _).
    unfold after in Hi, Hd. repeat split; congruence.
  - destruct (speak_frame l w k) as ((_ & _ & Hi & Hd) & _).
    repeat split; congruence.
  - destruct (resetLanguage_frame l w) as ((_ & _ & Hi & Hd) & _).
    unfold after in *.
    destruct (resetLanguage (l, w)) as [r [l' w']]; simpl in *.
    repeat split; congruence.
  - unfold after. rewrite dispose_eq.
    destruct (_disposed l) eqn:Hd; simpl; repeat split; congruence.
Qed.

Lemma steps_flags l l' :
  steps l l' ->
  (_initialized l = true -> _initialized l' = true)
  /\ (_disposed l = true -> _disposed l' = true).
Proof.
  induction 1 as [l|l l' op w Hsteps [IHi IHd]]; [tauto|].
  destruct (run_op_flags op l' w) as (Hi & Hd & _).
  unfold after in *. split; auto.
Qed.

(** *** The invariant of reachable instances *)

Lemma constructor_consistent (options : option (Options W)) :
  consistent (constructor options).
Proof.
  unfold constructor. destruct (defaults options) as [r p].
  repeat split; simpl; try discriminate. eauto.
Qed.

Lemma consistent_frame l l' :
  same_config l l' -> same_dictionary l l' -> consistent l -> consistent l'.
Proof.
  intros (Hr & Hp & Hi & Hd) (Hdata & Hav).
  unfold consistent. rewrite Hr, Hp, Hi, Hd, Hdata, Hav. tauto.
Qed.

Lemma run_op_consistent op l w :
  consistent l -> consistent (after (run_op op) l w).
Proof.
  intros Hc.
  destruct op as [data reset|data reset|k| |]; unfold run_op.
  - unfold after. rewrite initialize_eq.
    destruct (_initialized l) eqn:Hinit; [exact Hc|].
    pose proof (internalUpdate_frame l w data reset)
      as ((Hr & Hp & Hi & Hd) & Hdata & Hav).
    pose proof (internalUpdate_Ok l w data reset) as Hok.
    unfold after, result_of in *.
    destruct Hc as (C1 & C2 & C3 & C4).
    destruct (internalUpdate data reset (l, w)) as [[[]|e] [l' w']];
      simpl in *; unfold consistent; simpl;
      rewrite Hr, Hp, Hd, Hdata; repeat split; eauto; try apply C1;
      try apply C2; try assumption.
    intros Hi' _. congruence.
  - unfold after. rewrite update_eq.
    destruct (negb (_initialized l) || _disposed l) eqn:Hg; [exact Hc|].
    pose proof (internalUpdate_frame l w data reset)
      as ((Hr & Hp & Hi & Hd) & Hdata & Hav).
    unfold after in *.
    destruct Hc as (C1 & C2 & C3 & C4).
    unfold consistent. rewrite Hr, Hp, Hd, Hi, Hdata.
    repeat split; eauto; try apply C1; try apply C2; try assumption.
    intros Hi' Hd'. destruct data as [|kv data].
    + rewrite internalUpdate_empty. simpl. auto.
    + rewrite Hav by discriminate. eauto.
  - destruct (speak_frame l w k). eapply consistent_frame; eauto.
  - destruct (resetLanguage_frame l w) as [H1 H2]. unfold after in *.
    destruct (resetLanguage (l, w)) as [r [l' w']]; simpl in *.
    eapply consistent_frame; eauto.
  - unfold after. rewrite dispose_eq.
    destruct (_disposed l) eqn:Hd; [exact Hc|].
    unfold consistent; simpl. repeat split; try discriminate.
Qed.

Lemma reachable_consistent l : reachable l -> consistent l.
Proof.
  intros [options Hsteps].
  remember (constructor options) as l0 eqn:Hl0.
  induction Hsteps as [l|l l' op w Hsteps IH].
  - subst. apply constructor_consistent.
  - apply (run_op_consistent op l' w). auto.
Qed.

Lemma reachable_step op l w : reachable l -> reachable (after (run_op op) l w).
Proof. intros [options Hsteps]. exists options. apply steps_call, Hsteps. Qed.

(** An initialized instance that is not disposed holds everything a
    language switch needs. *)
Lemma reachable_ready l :
  reachable l -> _initialized l = true -> _disposed l = false ->
  exists langs d r p,
    _availableLanguages l = Some langs /\ _data l = Some d
    /\ _recorder l = Some r /\ _preset l = Some p.
Proof.
  intros Hreach Hi Hd.
  destruct (reachable_consistent l Hreach) as (C1 & _ & C3 & C4).
  destruct (C4 Hi Hd) as [langs Hlangs].
  destruct (C3 _ Hlangs) as [d Hdata].
  destruct (C1 Hd) as (r & p & Hr & Hp).
  exists langs, d, r, p. auto.
Qed.

(** *** The calls in closed form *)

Lemma speak_eq l w k langs :
  _availableLanguages l = Some langs ->
  speak k (l, w) =
    if includes langs k then changeSays k (l, w)
    else (Throw (LanguageUnavailableError k langs), (l, w)).
Proof.
  intros Hav. unfold speak, bind, this, throw. simpl. rewrite Hav.
  destruct (includes langs k); reflexivity.
Qed.

Lemma resetLanguage_eq l w langs (p : Preset W) :
  _availableLanguages l = Some langs -> _preset l = Some p ->
  resetLanguage (l, w) =
    match preset_result p langs w with
    | (Throw e, w1) => (Throw e, (l, w1))
    | (Ok lang, w1) =>
        if includes langs lang then
          match changeSays lang (l, w1) with
          | (Ok _, st') => (Ok lang, st')
          | (Throw e, st') => (Throw e, st')
          end
        else (Throw (PresetUnavailableError lang langs), (l, w1))
    end.
Proof.
  intros Hav Hp.
  unfold resetLanguage, resolve_preset, preset_result, bind, this, throw,
    ret, await.
  simpl. rewrite Hav. simpl. rewrite Hp.
  destruct p as [key|resolver]; simpl.
  - rewrite Hav. destruct (includes langs key); [|reflexivity].
    destruct (changeSays key (l, w)) as [[[]|e] st']; reflexivity.
  - destruct (resolver langs (navigator_languages w) w) as [[lang|e] w1];
      simpl; [|reflexivity].
    rewrite Hav. destruct (includes langs lang); [|reflexivity].
    destruct (changeSays lang (l, w1)) as [[[]|e] st']; reflexivity.
Qed.

(** C7: on an initialized instance that is not disposed, [speak] with a key
    that is not an available language throws the language-unavailable
    error, whose message lists the available keys joined by commas, and
    leaves the instance (current language, payload, available languages)
    and the world exactly as they were. *)
Theorem speak_unavailable l w language :
  reachable l -> initialized l = true -> disposed l = false ->
  exists langs,
    availableLanguages l = Ok langs
    /\ (~ In language langs ->
        speak language (l, w)
        = (Throw (LanguageUnavailableError language langs), (l, w))
        /\ message (LanguageUnavailableError language langs)
           = ("[langer] Cannot speak the " ++ dquote ++ language ++ dquote
              ++ " language that are not on the available languages("
              ++ join_comma langs ++ ").")%string).
Proof.
  intros Hreach Hi Hd.
  destruct (reachable_ready l Hreach Hi Hd) as (langs & d & r & p & Hav & _).
  exists langs. unfold availableLanguages. rewrite Hav.
  split; [reflexivity|]. intros Hnot. split; [|reflexivity].
  rewrite (speak_eq l w language langs Hav).
  apply includes_not_In in Hnot. rewrite Hnot. reflexivity.
Qed.

(** C2 (as amended): on an initialized instance that is not disposed,
    [speak] with an available key, and [resetLanguage] with the key its
    preset policy resolves to, assign the current language, then write the
    key to the recorder (in the world the call runs in), and assign the
    payload of that key only when the write returns.  When the write
    throws, the error propagates, the current language is already the new
    key and the payload is still the one from before the call. *)
Theorem speak_switch l w k :
  reachable l -> initialized l = true -> disposed l = false ->
  exists langs d (r : Recorder W) (p : Preset W),
    availableLanguages l = Ok langs /\ _data l = Some d
    /\ _recorder l = Some r /\ _preset l = Some p
    /\ (In k langs ->
        speak k (l, w) =
          match set r k w with
          | (Ok _, w') => (Ok tt, (switched d k l, w'))
          | (Throw e, w') => (Throw e, (setCurrLanguage (Some k) l, w'))
          end)
    /\ (forall w1, preset_result p langs w = (Ok k, w1) -> In k langs ->
        resetLanguage (l, w) =
          match set r k w1 with
          | (Ok _, w') => (Ok k, (switched d k l, w'))
          | (Throw e, w') => (Throw e, (setCurrLanguage (Some k) l, w'))
          end)
    /\ _currLanguage (switched d k l) = Some k
    /\ _says (switched d k l) = get_prop d k
    /\ _currLanguage (setCurrLanguage (Some k) l) = Some k
    /\ _says (setCurrLanguage (Some k) l) = _says l.
Proof.
  intros Hreach Hi Hd.
  destruct (reachable_ready l Hreach Hi Hd)
    as (langs & d & r & p & Hav & Hdata & Hr & Hp).
  exists langs, d, r, p. unfold availableLanguages. rewrite Hav.
  repeat split; try assumption.
  - intros Hin. apply includes_In in Hin.
    rewrite (speak_eq l w k langs Hav), Hin.
    apply changeSays_eq; assumption.
  - intros w1 Hpre Hin. apply includes_In in Hin.
    rewrite (resetLanguage_eq l w langs p Hav Hp), Hpre, Hin.
    rewrite (changeSays_eq l w1 k r d Hr Hdata).
    destruct (set r k w1) as [[[]|e] w']; reflexivity.
Qed.

(** C9: the [says] getter tests the stored payload for truthiness, so it
    throws the not-ready error whenever that payload is falsy (the empty
    string, zero, false, null); in particular on an initialized instance
    that is not disposed, after a [speak] that returned for a key whose
    payload in the dictionary is falsy. *)
Theorem says_falsy_payload l w k d l' w' :
  initialized l = true -> disposed l = false -> _data l = Some d ->
  speak k (l, w) = (Ok tt, (l', w')) ->
  truthy (get_prop d k) = false ->
  initialized l' = true /\ disposed l' = false
  /\ _currLanguage l' = Some k /\ _says l' = get_prop d k
  /\ says l' = Throw NotReadyError
  /\ message NotReadyError
     = "[langer] Invalid operation. Not initialized yet, failed to initialize or has been disposed."
  /\ truthy (VStr EmptyString) = false /\ truthy (VNum 0) = false
  /\ truthy (VBool false) = false /\ truthy VNull = false.
Proof.
  intros Hi Hd Hdata Hspeak Hfalsy.
  assert (Hl' : _initialized l' = true /\ _disposed l' = false
                /\ _currLanguage l' = Some k /\ _says l' = get_prop d k).
  { revert Hspeak. unfold initialized, disposed in *. run.
    destruct (_availableLanguages l) as [langs|]; simpl; [|discriminate].
    destruct (includes langs k); simpl; [|discriminate].
    destruct (_recorder l) as [r|]; simpl; [|discriminate].
    destruct (set r k w) as [[[]|e] w1]; simpl; [|discriminate].
    rewrite Hdata. simpl. intros [= <- <-]. simpl. auto. }
  destruct Hl' as (Hi' & Hd' & Hc' & Hs').
  unfold initialized, disposed, says. rewrite Hs', Hfalsy.
  repeat split; assumption.
Qed.

(** C10 (as amended): [update] with an empty dictionary throws the
    empty-dictionary error with the stored dictionary already replaced and
    the available languages still those of the previous dictionary.  A
    later [speak] of one of those keys, when its recorder write returns,
    returns too and stores what the empty dictionary yields for the key.
    For a key that does not name a member inherited from
    [Object.prototype] that is the absent value, after which [says] throws
    although [initialized] is true; for a key that names one, it is the
    inherited member and [says] returns it. *)
Theorem update_empty_not_atomic l w reset :
  reachable l -> initialized l = true -> disposed l = false ->
  exists langs (r : Recorder W),
    availableLanguages l = Ok langs /\ _recorder l = Some r
    /\ update [] reset (l, w)
       = (Throw EmptyDictionaryError, (setData (Some []) l, w))
    /\ _data (setData (Some []) l) = Some []
    /\ availableLanguages (setData (Some []) l) = Ok langs
    /\ initialized (setData (Some []) l) = true
    /\ (forall k w1 w2,
          In k langs -> set r k w1 = (Ok tt, w2) ->
          speak k (setData (Some []) l, w1)
          = (Ok tt, (switched [] k (setData (Some []) l), w2))
          /\ initialized (switched [] k (setData (Some []) l)) = true
          /\ (~ In k Object_prototype_keys ->
              _says (switched [] k (setData (Some []) l)) = VUndefined
              /\ says (switched [] k (setData (Some []) l))
                 = Throw NotReadyError)
          /\ (In k Object_prototype_keys ->
              says (switched [] k (setData (Some []) l))
              = Ok (VInherited k))).
Proof.
  intros Hreach Hi Hd.
  destruct (reachable_ready l Hreach Hi Hd)
    as (langs & d & r & p & Hav & Hdata & Hr & Hp).
  exists langs, r. unfold availableLanguages, initialized, disposed in *.
  simpl. rewrite Hav.
  split; [reflexivity|]. split; [exact Hr|].
  split; [rewrite update_eq, Hi, Hd; reflexivity|].
  repeat (split; [reflexivity || assumption|]).
  intros k w1 w2 Hin Hset.
  split; [|split; [exact Hi|split]].
  - rewrite (speak_eq _ w1 k langs) by exact Hav.
    apply includes_In in Hin. rewrite Hin.
    rewrite (changeSays_eq _ w1 k r []) by (simpl; auto).
    rewrite Hset. reflexivity.
  - intros Hnot.
    apply (proj2 (includes_not_In Object_prototype_keys k)) in Hnot.
    unfold says, switched. cbn [_says setSays].
    unfold get_prop. cbn [own_prop]. rewrite Hnot. split; reflexivity.
  - intros Hproto.
    apply (proj2 (includes_In Object_prototype_keys k)) in Hproto.
    unfold says, switched. cbn [_says setSays].
    unfold get_prop. cbn [own_prop]. rewrite Hproto. reflexivity.
Qed.

(** *** After disposal *)

(** An instance that was initialized and then disposed: every call is
    rejected before it assigns anything. *)
Lemma run_op_disposed op l w :
  _initialized l = true -> _disposed l = true ->
  _availableLanguages l = None ->
  after (run_op op) l w = l.
Proof.
  intros Hi Hd Hav. unfold after.
  destruct op as [data reset|data reset|k| |]; unfold run_op.
  - rewrite initialize_eq, Hi. reflexivity.
  - rewrite update_eq, Hi, Hd. reflexivity.
  - unfold speak, bind, this, throw. simpl. rewrite Hav. reflexivity.
  - unfold resetLanguage, bind, this, throw. simpl. rewrite Hav. reflexivity.
  - rewrite dispose_eq, Hd. reflexivity.
Qed.

Lemma steps_disposed l l' :
  steps l l' ->
  _initialized l = true -> _disposed l = true ->
  _availableLanguages l = None ->
  l' = l.
Proof.
  induction 1 as [l|l l' op w Hsteps IH]; intros Hi Hd Hav; [reflexivity|].
  rewrite (IH Hi Hd Hav).
  apply (run_op_disposed op l w Hi Hd Hav).
Qed.

(** C6 (as amended): over any sequence of calls [initialized] and
    [disposed] never go back to false.  In the state a [dispose] that
    returned leaves, the three getters and [update], [speak] and
    [resetLanguage] throw the not-ready error and a second [dispose] throws
    the already-disposed error, none of them changing anything.  When the
    instance had been initialized before it was disposed, [initialize]
    throws the already-initialized error (not the not-ready error) and
    every call made afterwards leaves the instance in that same state, so
    for such an instance the same holds at any later time. *)
Theorem dispose_poisons l w l' w' :
  dispose (l, w) = (Ok tt, (l', w')) ->
  (forall a b : Langer W, steps a b ->
     (initialized a = true -> initialized b = true)
     /\ (disposed a = true -> disposed b = true))
  /\ disposed l' = true
  /\ availableLanguages l' = Throw NotReadyError
  /\ speaking l' = Throw NotReadyError
  /\ says l' = Throw NotReadyError
  /\ (forall data reset w0,
        update data reset (l', w0) = (Throw NotReadyError, (l', w0)))
  /\ (forall k w0, speak k (l', w0) = (Throw NotReadyError, (l', w0)))
  /\ (forall w0, resetLanguage (l', w0) = (Throw NotReadyError, (l', w0)))
  /\ (forall w0, dispose (l', w0) = (Throw AlreadyDisposedError, (l', w0)))
  /\ (initialized l = true ->
      (forall data reset w0,
         initialize data reset (l', w0)
         = (Throw AlreadyInitializedError, (l', w0)))
      /\ (forall l'', steps l' l'' -> l'' = l')).
Proof.
  rewrite dispose_eq. destruct (_disposed l) eqn:Hd; [discriminate|].
  intros [= <- <-].
  split; [exact steps_flags|].
  repeat (split; [reflexivity|]).
  split.
  { intros data reset w0. rewrite update_eq. simpl.
    rewrite orb_true_r. reflexivity. }
  repeat (split; [reflexivity|]).
  intros Hi. unfold initialized in Hi. split.
  - intros data reset w0. rewrite initialize_eq. simpl.
    rewrite Hi. reflexivity.
  - intros l'' Hsteps. apply (steps_disposed _ _ Hsteps); auto.
Qed.

(** *** Loading a dictionary *)

Lemma changeSays_curr l w k :
  _currLanguage (after (changeSays k) l w) = Some k.
Proof. run. branch; reflexivity. Qed.

(** With [reset] the language comes from [resetLanguage], whatever the
    instance spoke and whatever the recorder remembers. *)
Lemma internalUpdate_reset_eq l w d :
  d <> [] ->
  internalUpdate d true (l, w) =
    match resetLanguage (loaded d l, w) with
    | (Ok _, st') => (Ok tt, st')
    | (Throw e, st') => (Throw e, st')
    end.
Proof.
  intros Hne. destruct d as [|kv d]; [congruence|].
  unfold internalUpdate, bind, assign, ret. simpl.
  unfold loaded. simpl.
  destruct (resetLanguage _) as [[lang|e] st']; reflexivity.
Qed.

(** Without [reset] a truthy current language is kept, with no look at the
    new dictionary's keys. *)
Lemma internalUpdate_keep_eq l w d k :
  d <> [] -> _currLanguage l = Some k -> truthy_string k = true ->
  internalUpdate d false (l, w) = changeSays k (loaded d l, w).
Proof.
  intros Hne Hcurr Htruthy. destruct d as [|kv d]; [congruence|].
  unfold internalUpdate, bind, assign, ret, this. simpl.
  rewrite Hcurr. simpl. rewrite Htruthy. simpl. rewrite Htruthy.
  reflexivity.
Qed.

(** Without [reset] and without a truthy current language the recorder is
    asked, and a truthy answer is taken as it is. *)
Lemma internalUpdate_recorder_eq l w d (r : Recorder W) :
  d <> [] -> truthy_opt (_currLanguage l) = false -> _recorder l = Some r ->
  internalUpdate d false (l, w) =
    match get r w with
    | (Ok (Some k), w1) =>
        if truthy_string k then changeSays k (loaded d l, w1)
        else match resetLanguage (loaded d l, w1) with
             | (Ok _, st') => (Ok tt, st')
             | (Throw e, st') => (Throw e, st')
             end
    | (Ok None, w1) =>
        match resetLanguage (loaded d l, w1) with
        | (Ok _, st') => (Ok tt, st')
        | (Throw e, st') => (Throw e, st')
        end
    | (Throw e, w1) => (Throw e, (loaded d l, w1))
    end.
Proof.
  intros Hne Hcurr Hr. destruct d as [|kv d]; [congruence|].
  unfold internalUpdate, recorder_get, bind, assign, ret, this, await. simpl.
  rewrite Hcurr. simpl. rewrite Hr. simpl.
  unfold loaded. simpl.
  destruct (get r w) as [[[k|]|e] w1]; simpl; try reflexivity.
  destruct (truthy_string k); reflexivity.
Qed.

(** A [speak] that returned has written its key to the recorder. *)
Lemma speak_Ok_set l w k l' w' (r : Recorder W) :
  _recorder l = Some r -> speak k (l, w) = (Ok tt, (l', w')) ->
  set r k w = (Ok tt, w').
Proof.
  intros Hr. run.
  destruct (_availableLanguages l) as [langs|]; simpl; [|discriminate].
  destruct (includes langs k); simpl; [|discriminate].
  rewrite Hr. simpl.
  destruct (set r k w) as [[[]|e] w1]; simpl; [|discriminate].
  destruct (_data l); simpl; [|discriminate].
  intros [= <- <-]. reflexivity.
Qed.

Lemma In_not_nil d k : In k (Object_keys d) -> d <> [].
Proof. intros Hin ->. exact Hin. Qed.

(** [initialize] without reset on an instance with no current language,
    when the recorder remembers the truthy key [k]: the key is switched to
    as it is. *)
Lemma initialize_remembered l w d k (r : Recorder W) :
  _initialized l = false -> truthy_opt (_currLanguage l) = false ->
  _recorder l = Some r -> d <> [] ->
  fst (get r w) = Ok (Some k) -> truthy_string k = true ->
  initialize d false (l, w) =
    match set r k (snd (get r w)) with
    | (Ok _, w2) => (Ok tt, (setInitialized (switched d k (loaded d l)), w2))
    | (Throw e, w2) => (Throw e, (setCurrLanguage (Some k) (loaded d l), w2))
    end.
Proof.
  intros Hi Hcurr Hr Hne Hget Htruthy.
  rewrite initialize_eq, Hi.
  rewrite (internalUpdate_recorder_eq l w d r Hne Hcurr Hr).
  destruct (get r w) as [rg w1]. simpl in *. subst rg. rewrite Htruthy.
  rewrite (changeSays_eq (loaded d l) w1 k r d) by (simpl; auto).
  destruct (set r k w1) as [[[]|e] w2]; reflexivity.
Qed.

(** C8: once a [speak] of a (non-empty) key such as zh has returned on one
    instance, a fresh instance built on the same recorder, whose [get]
    returns what was last [set], and initialized without reset against a
    dictionary that has the key speaks that key, with that key's payload
    when the call returns.  With reset, [initialize] never asks the
    recorder: the language is the one the preset policy (fixed key or
    resolver) yields, and it must be an available key. *)
Theorem remember_reset_dispatch (r : Recorder W) (p : Preset W)
    (options : option (Options W)) l w l' w' k d :
  remembers r ->
  _recorder l = Some r -> speak k (l, w) = (Ok tt, (l', w')) ->
  truthy_string k = true ->
  defaults options = (r, p) ->
  In k (Object_keys d) ->
  (speaking (after (initialize d false) (constructor options) w') = Ok k
   /\ (result_of (initialize d false) (constructor options) w' = Ok tt ->
       _says (after (initialize d false) (constructor options) w')
       = get_prop d k))
  /\ (forall w0,
        initialize d true (constructor options, w0) =
          match preset_result p (Object_keys d) w0 with
          | (Throw e, w1) => (Throw e, (loaded d (constructor options), w1))
          | (Ok key, w1) =>
              if includes (Object_keys d) key then
                match set r key w1 with
                | (Ok _, w2) =>
                    (Ok tt,
                     (setInitialized
                        (switched d key (loaded d (constructor options))),
                      w2))
                | (Throw e, w2) =>
                    (Throw e,
                     (setCurrLanguage (Some key)
                        (loaded d (constructor options)), w2))
                end
              else
                (Throw (PresetUnavailableError key (Object_keys d)),
                 (loaded d (constructor options), w1))
          end).
Proof.
  intros Hrem Hr Hspeak Htruthy Hdef Hin.
  pose proof (In_not_nil d k Hin) as Hne.
  assert (Hfresh : constructor options =
    {| _says := VUndefined; _data := None; _availableLanguages := None;
       _currLanguage := None; _recorder := Some r; _preset := Some p;
       _initialized := false; _disposed := false |}).
  { unfold constructor. rewrite Hdef. reflexivity. }
  split.
  - pose proof (speak_Ok_set l w k l' w' r Hr Hspeak) as Hset.
    pose proof (Hrem k w w' Hset) as Hget.
    unfold after, result_of.
    rewrite (initialize_remembered (constructor options) w' d k r)
      by (try assumption; rewrite Hfresh; reflexivity).
    unfold speaking.
    destruct (set r k (snd (get r w'))) as [[[]|e] w2]; simpl;
      rewrite Htruthy; split; try reflexivity; discriminate.
  - intros w0. rewrite initialize_eq.
    replace (_initialized (constructor options)) with false
      by (rewrite Hfresh; reflexivity).
    rewrite (internalUpdate_reset_eq _ w0 d Hne).
    rewrite (resetLanguage_eq _ w0 (Object_keys d) p)
      by (rewrite Hfresh; reflexivity).
    destruct (preset_result p (Object_keys d) w0) as [[key|e] w1];
      [|reflexivity].
    destruct (includes (Object_keys d) key); [|reflexivity].
    rewrite (changeSays_eq _ w1 key r d) by (rewrite Hfresh; reflexivity).
    destruct (set r key w1) as [[[]|e] w2]; reflexivity.
Qed.

(** *** What the guarded paths establish *)

(** [speak] and [resetLanguage] check the key against the available
    languages before they switch. *)
Lemma speak_Ok_member l w k l' w' :
  speak k (l, w) = (Ok tt, (l', w')) ->
  exists langs,
    availableLanguages l' = Ok langs /\ In k langs
    /\ _currLanguage l' = Some k.
Proof.
  intros Hspeak.
  pose proof (speak_frame l w k) as [_ [_ Hav]].
  pose proof (changeSays_curr l w k) as Hcurr.
  unfold after in *. revert Hspeak Hav Hcurr.
  unfold speak, bind, this, throw. simpl.
  destruct (_availableLanguages l) as [langs|] eqn:Hl; [|discriminate].
  destruct (includes langs k) eqn:Hin; [|discriminate].
  intros ->. simpl. intros Hav Hcurr. exists langs.
  unfold availableLanguages. rewrite Hav.
  repeat split; [apply includes_In, Hin | exact Hcurr].
Qed.

Lemma resetLanguage_Ok_member l w k l' w' :
  resetLanguage (l, w) = (Ok k, (l', w')) ->
  exists langs,
    availableLanguages l' = Ok langs /\ In k langs
    /\ _currLanguage l' = Some k.
Proof.
  intros Hreset.
  pose proof (resetLanguage_frame l w) as [_ [_ Hav]].
  unfold after in Hav. rewrite Hreset in Hav. simpl in Hav.
  revert Hreset. unfold resetLanguage, bind, this, throw, ret. simpl.
  destruct (_availableLanguages l) as [langs|] eqn:Hl; [|discriminate].
  destruct (resolve_preset langs (l, w)) as [[lang|e] [l1 w1]] eqn:Hres;
    [|discriminate].
  simpl.
  destruct (_availableLanguages l1) as [langs1|] eqn:Hl1; [|discriminate].
  destruct (includes langs1 lang) eqn:Hin; [|discriminate].
  assert (Hl1' : l1 = l).
  { revert Hres. unfold resolve_preset, bind, this, throw, ret, await. simpl.
    destruct (_preset l) as [[key|resolver]|]; simpl.
    - intros [= _ <- _]. reflexivity.
    - destruct (resolver _ _ _). intros [= _ <- _]. reflexivity.
    - discriminate. }
  subst l1. rewrite Hl in Hl1. injection Hl1 as <-.
  pose proof (changeSays_curr l w1 lang) as Hcurr. unfold after in Hcurr.
  destruct (changeSays lang (l, w1)) as [[[]|e] [l2 w2]]; [|discriminate].
  intros [= <- <- <-]. simpl in Hcurr. exists langs.
  unfold availableLanguages. rewrite Hav.
  repeat split; [apply includes_In, Hin | exact Hcurr].
Qed.

(** A failed [initialize] leaves [initialized] as it was, and with an empty
    dictionary it leaves the three getters as they were. *)
Lemma initialize_Throw_flag l w d reset e l' w' :
  initialize d reset (l, w) = (Throw e, (l', w')) ->
  _initialized l' = _initialized l.
Proof.
  rewrite initialize_eq.
  destruct (_initialized l) eqn:Hi; [intros [= _ <- _]; exact Hi|].
  pose proof (internalUpdate_frame l w d reset) as ((_ & _ & Hi' & _) & _).
  unfold after in Hi'.
  destruct (internalUpdate d reset (l, w)) as [[[]|e'] [l1 w1]];
    [discriminate|].
  intros [= _ <- _]. simpl in Hi'. congruence.
Qed.

Lemma initialize_empty l w reset :
  _initialized l = false ->
  initialize [] reset (l, w)
  = (Throw EmptyDictionaryError, (setData (Some []) l, w)).
Proof. intros Hi. rewrite initialize_eq, Hi. reflexivity. Qed.

(** [update] without reset keeps a truthy current language, whether or not
    the new dictionary has it; with reset it goes through
    [resetLanguage]. *)
Lemma update_keep_eq l w d k :
  _initialized l = true -> _disposed l = false ->
  d <> [] -> _currLanguage l = Some k -> truthy_string k = true ->
  update d false (l, w) = changeSays k (loaded d l, w).
Proof.
  intros Hi Hd Hne Hcurr Htruthy. rewrite update_eq, Hi, Hd. simpl.
  apply internalUpdate_keep_eq; assumption.
Qed.

Lemma update_reset_eq l w d :
  _initialized l = true -> _disposed l = false -> d <> [] ->
  update d true (l, w) =
    match resetLanguage (loaded d l, w) with
    | (Ok _, st') => (Ok tt, st')
    | (Throw e, st') => (Throw e, st')
    end.
Proof.
  intros Hi Hd Hne. rewrite update_eq, Hi, Hd. simpl.
  apply internalUpdate_reset_eq; assumption.
Qed.

(** *** What a call that returned has done *)

Lemma changeSays_Ok l w k l' w' :
  changeSays k (l, w) = (Ok tt, (l', w')) ->
  exists (r : Recorder W) d,
    _recorder l = Some r /\ _data l = Some d
    /\ set r k w = (Ok tt, w') /\ l' = switched d k l.
Proof.
  run. destruct (_recorder l) as [r|]; simpl; [|discriminate].
  destruct (set r k w) as [[[]|e] w1] eqn:Hset; simpl; [|discriminate].
  destruct (_data l) as [d|]; simpl; [|discriminate].
  intros [= <- <-]. exists r, d. auto.
Qed.

Lemma changeSays_no_recorder l w k :
  _recorder l = None -> exists e, result_of (changeSays k) l w = Throw e.
Proof. intros Hr. run. rewrite Hr. simpl. eauto. Qed.

Lemma resetLanguage_not_ready l w :
  _availableLanguages l = None ->
  resetLanguage (l, w) = (Throw NotReadyError, (l, w)).
Proof.
  intros Hav. unfold resetLanguage, bind, this, throw. simpl.
  rewrite Hav. reflexivity.
Qed.

Lemma resetLanguage_no_preset l w :
  _preset l = None -> exists e, result_of resetLanguage l w = Throw e.
Proof.
  intros Hp. unfold result_of.
  destruct (_availableLanguages l) as [langs|] eqn:Hav.
  - unfold resetLanguage, resolve_preset, bind, this, throw. simpl.
    rewrite Hav. simpl. rewrite Hp. simpl. eauto.
  - rewrite resetLanguage_not_ready by exact Hav. simpl. eauto.
Qed.

Lemma resetLanguage_Ok l w k l' w' :
  resetLanguage (l, w) = (Ok k, (l', w')) ->
  exists langs (p : Preset W) (r : Recorder W) d w1,
    _availableLanguages l = Some langs /\ _preset l = Some p
    /\ _recorder l = Some r /\ _data l = Some d
    /\ preset_result p langs w = (Ok k, w1) /\ In k langs
    /\ set r k w1 = (Ok tt, w') /\ l' = switched d k l.
Proof.
  intros H.
  destruct (_availableLanguages l) as [langs|] eqn:Hav.
  2:{ rewrite resetLanguage_not_ready in H by exact Hav. discriminate. }
  destruct (_preset l) as [p|] eqn:Hp.
  2:{ destruct (resetLanguage_no_preset l w Hp) as [e He].
      unfold result_of in He. rewrite H in He. discriminate. }
  rewrite (resetLanguage_eq l w langs p Hav Hp) in H.
  destruct (preset_result p langs w) as [[lang|e] w1] eqn:Hpre;
    [|discriminate].
  destruct (includes langs lang) eqn:Hin; [|discriminate].
  destruct (changeSays lang (l, w1)) as [[[]|e] [l2 w2]] eqn:Hcs;
    [|discriminate].
  injection H as <- <- <-.
  destruct (changeSays_Ok _ _ _ _ _ Hcs) as (r & d & Hr & Hd & Hset & ->).
  exists langs, p, r, d, w1. repeat split; auto. apply includes_In, Hin.
Qed.

(** The three ways [internalUpdate] goes on once a non-empty dictionary is
    stored: a switch to a kept or remembered key, a reset, or the error of
    the recorder's [get]. *)
Lemma internalUpdate_cases l w d reset :
  d <> [] ->
  (exists k w1, internalUpdate d reset (l, w) = changeSays k (loaded d l, w1))
  \/ (exists w1,
        internalUpdate d reset (l, w) =
          match resetLanguage (loaded d l, w1) with
          | (Ok _, st') => (Ok tt, st')
          | (Throw e, st') => (Throw e, st')
          end)
  \/ (exists e w1, internalUpdate d reset (l, w) = (Throw e, (loaded d l, w1))).
Proof.
  intros Hne. destruct reset.
  - right. left. exists w. apply internalUpdate_reset_eq, Hne.
  - destruct (truthy_opt (_currLanguage l)) eqn:Hcurr.
    + destruct (_currLanguage l) as [k|] eqn:Hk; [|discriminate].
      left. exists k, w. apply internalUpdate_keep_eq; assumption.
    + destruct (_recorder l) as [r|] eqn:Hr.
      * rewrite (internalUpdate_recorder_eq l w d r Hne Hcurr Hr).
        destruct (get r w) as [[[k|]|e] w1].
        -- destruct (truthy_string k); [left|right; left]; eauto.
        -- right. left. eauto.
        -- right. right. eauto.
      * right. right. exists TypeError, w.
        destruct d as [|kv d]; [congruence|].
        unfold internalUpdate, recorder_get, bind, assign, ret, this, throw.
        simpl. rewrite Hcurr. simpl. rewrite Hr. reflexivity.
Qed.

Lemma internalUpdate_Ok_switched l w d reset l' w' :
  internalUpdate d reset (l, w) = (Ok tt, (l', w')) ->
  d <> []
  /\ exists k (r : Recorder W) w1,
       _recorder l = Some r /\ set r k w1 = (Ok tt, w')
       /\ l' = switched d k (loaded d l).
Proof.
  intros H.
  assert (Hne : d <> []).
  { intros ->. rewrite internalUpdate_empty in H. discriminate. }
  split; [exact Hne|].
  destruct (internalUpdate_cases l w d reset Hne)
    as [(k & w1 & Heq)|[(w1 & Heq)|(e & w1 & Heq)]]; rewrite Heq in H.
  - destruct (changeSays_Ok _ _ _ _ _ H) as (r & d0 & Hr & Hd & Hset & ->).
    simpl in Hr, Hd. injection Hd as <-. exists k, r, w1. auto.
  - destruct (resetLanguage (loaded d l, w1)) as [[k|e] [l2 w2]] eqn:Hreset;
      [|discriminate].
    injection H as <- <-.
    destruct (resetLanguage_Ok _ _ _ _ _ Hreset)
      as (langs & p & r & d0 & w2' & _ & _ & Hr & Hd & _ & _ & Hset & ->).
    simpl in Hr, Hd. injection Hd as <-. exists k, r, w2'. auto.
  - discriminate.
Qed.

(** X2: an [initialize] that returned was called on an instance not yet
    initialized with a non-empty dictionary; it has set [initialized], left
    [disposed] alone, stored the dictionary and made its key list the
    available languages.  Any [initialize] after it throws the
    already-initialized error and changes nothing. *)
Theorem initialize_installs l w d reset l' w' :
  initialize d reset (l, w) = (Ok tt, (l', w')) ->
  initialized l = false /\ d <> []
  /\ initialized l' = true /\ disposed l' = disposed l
  /\ availableLanguages l' = Ok (Object_keys d) /\ _data l' = Some d
  /\ (forall d2 reset2 w2,
        initialize d2 reset2 (l', w2)
        = (Throw AlreadyInitializedError, (l', w2))).
Proof.
  rewrite initialize_eq. unfold initialized, disposed.
  destruct (_initialized l) eqn:Hi; [discriminate|].
  destruct (internalUpdate d reset (l, w)) as [[[]|e] [l1 w1]] eqn:Hup;
    [|discriminate].
  intros [= <- <-].
  destruct (internalUpdate_Ok_switched _ _ _ _ _ _ Hup)
    as (Hne & k & r & w0 & _ & _ & ->).
  split; [reflexivity|]. split; [exact Hne|].
  repeat (split; [reflexivity|]).
  intros d2 reset2 w2. rewrite initialize_eq. reflexivity.
Qed.

(** X3: an [update] that returned was called on an initialized instance
    that is not disposed with a non-empty dictionary; it has stored the
    dictionary and made its key list the available languages, and left both
    flags alone. *)
Theorem update_installs l w d reset l' w' :
  update d reset (l, w) = (Ok tt, (l', w')) ->
  initialized l = true /\ disposed l = false /\ d <> []
  /\ initialized l' = true /\ disposed l' = false
  /\ availableLanguages l' = Ok (Object_keys d) /\ _data l' = Some d.
Proof.
  rewrite update_eq. unfold initialized, disposed.
  destruct (_initialized l) eqn:Hi; [|discriminate].
  destruct (_disposed l) eqn:Hd; [discriminate|]. simpl.
  intros Hup.
  destruct (internalUpdate_Ok_switched _ _ _ _ _ _ Hup)
    as (Hne & k & r & w0 & _ & _ & ->).
  repeat split; assumption.
Qed.

(** X4: after any [initialize], [update], [speak] or [resetLanguage] that
    returned, the payload is the stored dictionary's entry for the current
    language and the last thing done to the world is the recorder's [set]
    of that language; so a recorder that returns what was last set now
    returns the current language. *)
Theorem success_lock_step op l w l' w' :
  op <> OpDispose -> run_op op (l, w) = (Ok tt, (l', w')) ->
  exists k d (r : Recorder W) w1,
    _currLanguage l' = Some k /\ _data l' = Some d
    /\ _says l' = get_prop d k
    /\ _recorder l' = Some r /\ set r k w1 = (Ok tt, w')
    /\ (remembers r -> fst (get r w') = Ok (Some k)).
Proof.
  intros Hop Hrun.
  assert (Hgoal : exists k d (r : Recorder W) w1,
            _currLanguage l' = Some k /\ _data l' = Some d
            /\ _says l' = get_prop d k
            /\ _recorder l' = Some r /\ set r k w1 = (Ok tt, w')).
  { destruct op as [d reset|d reset|k| |]; unfold run_op in Hrun.
    - rewrite initialize_eq in Hrun.
      destruct (_initialized l); [discriminate|].
      destruct (internalUpdate d reset (l, w)) as [[[]|e] [l1 w1]] eqn:Hup;
        [|discriminate].
      injection Hrun as <- <-.
      destruct (internalUpdate_Ok_switched _ _ _ _ _ _ Hup)
        as (_ & k & r & w0 & Hr & Hset & ->).
      exists k, d, r, w0. repeat split; assumption.
    - rewrite update_eq in Hrun.
      destruct (negb (_initialized l) || _disposed l); [discriminate|].
      destruct (internalUpdate_Ok_switched _ _ _ _ _ _ Hrun)
        as (_ & k & r & w0 & Hr & Hset & ->).
      exists k, d, r, w0. repeat split; assumption.
    - destruct (_availableLanguages l) as [langs|] eqn:Hav.
      + rewrite (speak_eq l w k langs Hav) in Hrun.
        destruct (includes langs k); [|discriminate].
        destruct (changeSays_Ok _ _ _ _ _ Hrun)
          as (r & d & Hr & Hd & Hset & ->).
        exists k, d, r, w. repeat split; assumption.
      + revert Hrun. unfold speak, bind, this, throw. simpl.
        rewrite Hav. discriminate.
    - destruct (resetLanguage (l, w)) as [[k|e] [l1 w1]] eqn:Hreset;
        [|discriminate].
      injection Hrun as <- <-.
      destruct (resetLanguage_Ok _ _ _ _ _ Hreset)
        as (langs & p & r & d & w0 & _ & _ & Hr & Hd & _ & _ & Hset & ->).
      exists k, d, r, w0. repeat split; assumption.
    - congruence. }
  destruct Hgoal as (k & d & r & w1 & Hc & Hd & Hs & Hr & Hset).
  exists k, d, r, w1. repeat split; try assumption.
  intros Hrem. exact (Hrem k w1 w' Hset).
Qed.

(** X5: [speak] returns only for an available key; the instance it leaves
    differs from the one before in the current language, now that key, and
    in the payload, now the stored dictionary's entry for it, and the
    recorder's [set] of the key is what changed the world. *)
Theorem speak_returns l w k l' w' :
  speak k (l, w) = (Ok tt, (l', w')) ->
  exists langs d (r : Recorder W),
    availableLanguages l = Ok langs /\ In k langs
    /\ _data l = Some d /\ _recorder l = Some r
    /\ set r k w = (Ok tt, w') /\ l' = switched d k l
    /\ availableLanguages l' = Ok langs.
Proof.
  intros Hspeak.
  destruct (_availableLanguages l) as [langs|] eqn:Hav.
  - rewrite (speak_eq l w k langs Hav) in Hspeak.
    destruct (includes langs k) eqn:Hin; [|discriminate].
    destruct (changeSays_Ok _ _ _ _ _ Hspeak) as (r & d & Hr & Hd & Hset & ->).
    exists langs, d, r. unfold availableLanguages. simpl. rewrite Hav.
    repeat split; try assumption. apply includes_In, Hin.
  - revert Hspeak. unfold speak, bind, this, throw. simpl.
    rewrite Hav. discriminate.
Qed.

(** X6: the key [resetLanguage] returns is the one its preset policy
    resolved on the available languages, it is one of them, and it is the
    language the instance now speaks, with the stored dictionary's payload
    for it; the available languages are as before. *)
Theorem resetLanguage_returns l w k l' w' :
  resetLanguage (l, w) = (Ok k, (l', w')) ->
  exists langs (p : Preset W) d w1,
    availableLanguages l = Ok langs /\ _preset l = Some p
    /\ preset_result p langs w = (Ok k, w1) /\ In k langs
    /\ _data l = Some d /\ l' = switched d k l
    /\ availableLanguages l' = Ok langs.
Proof.
  intros Hreset.
  destruct (resetLanguage_Ok _ _ _ _ _ Hreset)
    as (langs & p & r & d & w1 & Hav & Hp & _ & Hd & Hpre & Hin & _ & ->).
  exists langs, p, d, w1. unfold availableLanguages. simpl. rewrite Hav.
  repeat split; assumption.
Qed.

(** X7: when the preset policy resolves to a key that is not an available
    language, [resetLanguage] throws the preset-unavailable error, whose
    message quotes the key and lists the available languages; when the
    resolver throws, its error goes through.  Either way the instance is
    left as it was and the recorder is not written. *)
Theorem resetLanguage_rejects l w langs (p : Preset W) :
  _availableLanguages l = Some langs -> _preset l = Some p ->
  (forall k w1,
     preset_result p langs w = (Ok k, w1) -> ~ In k langs ->
     resetLanguage (l, w) = (Throw (PresetUnavailableError k langs), (l, w1))
     /\ message (PresetUnavailableError k langs)
        = ("[langer] The preset language " ++ dquote ++ k ++ dquote
           ++ " is not on the available languages("
           ++ join_comma langs ++ ").")%string)
  /\ (forall e w1,
        preset_result p langs w = (Throw e, w1) ->
        resetLanguage (l, w) = (Throw e, (l, w1))).
Proof.
  intros Hav Hp. split.
  - intros k w1 Hpre Hnot. split; [|reflexivity].
    rewrite (resetLanguage_eq l w langs p Hav Hp), Hpre.
    apply includes_not_In in Hnot. rewrite Hnot. reflexivity.
  - intros e w1 Hpre.
    rewrite (resetLanguage_eq l w langs p Hav Hp), Hpre. reflexivity.
Qed.

(** *** Defaults, remembering and resetting *)

Lemma resetLanguage_default_eq l w langs (r : Recorder W) d :
  _availableLanguages l = Some langs -> _preset l = Some default_preset ->
  _recorder l = Some r -> _data l = Some d ->
  resetLanguage (l, w) =
    match presetLanguage langs (navigator_languages w) with
    | Ok k =>
        match set r k w with
        | (Ok _, w') => (Ok k, (switched d k l, w'))
        | (Throw e, w') => (Throw e, (setCurrLanguage (Some k) l, w'))
        end
    | Throw _ => (Throw NoMatchError, (l, w))
    end.
Proof.
  intros Hav Hp Hr Hd.
  rewrite (resetLanguage_eq l w langs default_preset Hav Hp).
  unfold default_preset, getDefOptions, preset_result. simpl.
  destruct (presetLanguage langs (navigator_languages w)) as [k|e] eqn:Hpre.
  - apply presetLanguage_Ok_In, includes_In in Hpre. rewrite Hpre.
    rewrite (changeSays_eq l w k r d Hr Hd).
    destruct (set r k w) as [[[]|e] w']; reflexivity.
  - rewrite (presetLanguage_Throw _ _ _ Hpre). reflexivity.
Qed.

(** X8: on an initialized instance that is not disposed and holds the
    default preset, [resetLanguage] throws the no-match error, with nothing
    changed, when [presetLanguage] finds no key among the available
    languages for [navigator.languages]; otherwise it switches to the key
    found, so its availability test never fails. *)
Theorem resetLanguage_default_preset l w :
  reachable l -> initialized l = true -> disposed l = false ->
  _preset l = Some default_preset ->
  exists langs d (r : Recorder W),
    availableLanguages l = Ok langs /\ _data l = Some d
    /\ _recorder l = Some r
    /\ resetLanguage (l, w) =
         match presetLanguage langs (navigator_languages w) with
         | Ok k =>
             match set r k w with
             | (Ok _, w') => (Ok k, (switched d k l, w'))
             | (Throw e, w') => (Throw e, (setCurrLanguage (Some k) l, w'))
             end
         | Throw _ => (Throw NoMatchError, (l, w))
         end.
Proof.
  intros Hreach Hi Hd Hp.
  destruct (reachable_ready l Hreach Hi Hd)
    as (langs & d & r & p & Hav & Hdata & Hr & _).
  exists langs, d, r. unfold availableLanguages. rewrite Hav.
  repeat split; try assumption.
  apply resetLanguage_default_eq; assumption.
Qed.

(** X9: a first visit with the defaults.  When [localStorage] holds
    nothing (or the empty string) under the recorder's key and
    [presetLanguage] finds the key [k] for [navigator.languages],
    [new Langer().initialize(d)] returns when the storage accepts the
    write: the instance is initialized, speaks [k], an available language,
    with the dictionary's payload for it, and [k] has been stored. *)
Theorem first_visit_presets d k w w' :
  truthy_opt (localStorage_getItem LOCAL_STORAGE_KEY w) = false ->
  presetLanguage (Object_keys d) (navigator_languages w) = Ok k ->
  localStorage_setItem LOCAL_STORAGE_KEY k w = (Ok tt, w') ->
  initialize d false (constructor None, w)
  = (Ok tt, (setInitialized (switched d k (loaded d (constructor None))), w'))
  /\ In k (Object_keys d)
  /\ speaking (setInitialized (switched d k (loaded d (constructor None))))
     = Ok k
  /\ _says (setInitialized (switched d k (loaded d (constructor None))))
     = get_prop d k
  /\ availableLanguages
       (setInitialized (switched d k (loaded d (constructor None))))
     = Ok (Object_keys d).
Proof.
  intros Hget Hpre Hset.
  pose proof (presetLanguage_Ok_In _ _ _ Hpre) as Hin.
  pose proof (presetLanguage_Ok_first_match _ _ _ Hpre) as [_ Hk].
  apply truthy_string_nonempty in Hk.
  pose proof (In_not_nil d k Hin) as Hne.
  split; [|unfold speaking; simpl; rewrite Hk; auto].
  rewrite initialize_eq. simpl.
  rewrite (internalUpdate_recorder_eq (constructor None) w d recorder Hne)
    by reflexivity.
  assert (Hreset :
    resetLanguage (loaded d (constructor None), w)
    = (Ok k, (switched d k (loaded d (constructor None)), w'))).
  { rewrite (resetLanguage_default_eq _ w (Object_keys d) recorder d)
      by reflexivity.
    rewrite Hpre. simpl. rewrite Hset. reflexivity. }
  simpl.
  destruct (localStorage_getItem LOCAL_STORAGE_KEY w) as [s|];
    simpl in Hget; [rewrite Hget|]; rewrite Hreset; reflexivity.
Qed.

(** X10: [initialize] without reset on an instance that has no current
    language, when the recorder answers null or the empty string, does what
    [initialize] with reset does in the world the recorder's [get]
    left. *)
Theorem initialize_unremembered_is_reset l w d (r : Recorder W) o w1 :
  initialized l = false -> truthy_opt (_currLanguage l) = false ->
  _recorder l = Some r -> d <> [] ->
  get r w = (Ok o, w1) -> truthy_opt o = false ->
  initialize d false (l, w) = initialize d true (l, w1).
Proof.
  intros Hi Hcurr Hr Hne Hget Ho. unfold initialized in Hi.
  rewrite !initialize_eq, Hi.
  rewrite (internalUpdate_recorder_eq l w d r Hne Hcurr Hr), Hget.
  rewrite (internalUpdate_reset_eq l w1 d Hne).
  destruct o as [s|]; simpl in Ho; [rewrite Ho|]; reflexivity.
Qed.

(** X11: [update] without reset on an initialized instance that is not
    disposed and speaks [k], when the new dictionary still has [k] and the
    recorder accepts the write: the instance goes on speaking [k], with
    the new dictionary's payload for it and the new key list; the recorder
    is written, not read. *)
Theorem update_keeps_available_language l w d k (r : Recorder W) w' :
  initialized l = true -> disposed l = false ->
  _recorder l = Some r -> speaking l = Ok k ->
  In k (Object_keys d) -> set r k w = (Ok tt, w') ->
  update d false (l, w) = (Ok tt, (switched d k (loaded d l), w'))
  /\ speaking (switched d k (loaded d l)) = Ok k
  /\ _says (switched d k (loaded d l)) = get_prop d k
  /\ availableLanguages (switched d k (loaded d l)) = Ok (Object_keys d).
Proof.
  intros Hi Hd Hr Hspeaking Hin Hset.
  assert (Hk : _currLanguage l = Some k /\ truthy_string k = true).
  { revert Hspeaking. unfold speaking.
    destruct (_currLanguage l) as [k'|]; [|discriminate].
    destruct (truthy_string k') eqn:Ht; [|discriminate].
    intros [= <-]. auto. }
  destruct Hk as [Hcurr Htruthy].
  split; [|unfold speaking; simpl; rewrite Htruthy; auto].
  rewrite (update_keep_eq l w d k Hi Hd (In_not_nil d k Hin) Hcurr Htruthy).
  rewrite (changeSays_eq (loaded d l) w k r d) by (simpl; auto).
  rewrite Hset. reflexivity.
Qed.

(** *** Disposed and fresh instances *)

Lemma internalUpdate_released l w d reset :
  _recorder l = None -> _preset l = None ->
  exists e, result_of (internalUpdate d reset) l w = Throw e.
Proof.
  intros Hr Hp. unfold result_of.
  destruct d as [|kv d]; [rewrite internalUpdate_empty; simpl; eauto|].
  destruct (internalUpdate_cases l w (kv :: d) reset ltac:(discriminate))
    as [(k & w1 & ->)|[(w1 & ->)|(e & w1 & ->)]].
  - apply (changeSays_no_recorder (loaded (kv :: d) l) w1 k). exact Hr.
  - destruct (resetLanguage_no_preset (loaded (kv :: d) l) w1 Hp) as [e He].
    unfold result_of in He.
    destruct (resetLanguage _) as [[k|e'] st']; simpl in *;
      [discriminate | eauto].
  - simpl. eauto.
Qed.

(** X12: no call returns on a disposed instance: whatever the instance went
    through before and after [dispose], [initialize], [update], [speak],
    [resetLanguage] and [dispose] all throw. *)
Theorem disposed_rejects_everything l :
  reachable l -> disposed l = true ->
  forall (op : Op) (w : W), exists e, result_of (run_op op) l w = Throw e.
Proof.
  intros Hreach Hd op w. unfold disposed in Hd.
  destruct (reachable_consistent l Hreach) as (_ & C2 & _).
  destruct (C2 Hd) as [Hr Hp].
  unfold result_of.
  destruct op as [d reset|d reset|k| |]; unfold run_op.
  - rewrite initialize_eq. destruct (_initialized l); [simpl; eauto|].
    destruct (internalUpdate_released l w d reset Hr Hp) as [e He].
    unfold result_of in He.
    destruct (internalUpdate d reset (l, w)) as [[[]|e'] [l1 w1]];
      simpl in *; [discriminate | eauto].
  - rewrite update_eq, Hd, orb_true_r. simpl. eauto.
  - destruct (_availableLanguages l) as [langs|] eqn:Hav.
    + rewrite (speak_eq l w k langs Hav).
      destruct (includes langs k); [|simpl; eauto].
      apply (changeSays_no_recorder l w k Hr).
    + unfold speak, bind, this, throw. simpl. rewrite Hav. simpl. eauto.
  - destruct (resetLanguage_no_preset l w Hp) as [e He].
    unfold result_of in He.
    destruct (resetLanguage (l, w)) as [[k|e'] st']; simpl in *;
      [discriminate | eauto].
  - rewrite dispose_eq, Hd. simpl. eauto.
Qed.

Lemma run_op_nonempty op l w :
  (forall langs, _availableLanguages l = Some langs -> langs <> []) ->
  forall langs,
    _availableLanguages (after (run_op op) l w) = Some langs -> langs <> [].
Proof.
  intros Hl.
  assert (Hload : forall d reset langs,
            _availableLanguages (after (internalUpdate d reset) l w)
            = Some langs -> langs <> []).
  { intros d reset langs. destruct d as [|kv d].
    - unfold after. rewrite internalUpdate_empty. simpl. apply Hl.
    - destruct (internalUpdate_frame l w (kv :: d) reset) as (_ & _ & Hav).
      rewrite Hav by discriminate. intros [= <-]. discriminate. }
  destruct op as [d reset|d reset|k| |]; unfold run_op.
  - unfold after. rewrite initialize_eq.
    destruct (_initialized l); [exact Hl|].
    intros langs. specialize (Hload d reset langs). unfold after in Hload.
    destruct (internalUpdate d reset (l, w)) as [[[]|e] [l1 w1]];
      simpl in *; exact Hload.
  - unfold after. rewrite update_eq.
    destruct (negb (_initialized l) || _disposed l); [exact Hl|].
    apply Hload.
  - destruct (speak_frame l w k) as [_ [_ Hav]]. rewrite Hav. exact Hl.
  - destruct (resetLanguage_frame l w) as [_ [_ Hav]]. unfold after in *.
    destruct (resetLanguage (l, w)) as [r [l1 w1]]; simpl in *.
    rewrite Hav. exact Hl.
  - unfold after. rewrite dispose_eq.
    destruct (_disposed l); [exact Hl|]. simpl. discriminate.
Qed.

(** X13: whatever calls were made, returned or not, [availableLanguages]
    never returns an empty array, and it does return on an initialized
    instance that is not disposed. *)
Theorem availableLanguages_invariant l :
  reachable l ->
  (forall langs, availableLanguages l = Ok langs -> langs <> [])
  /\ (initialized l = true -> disposed l = false ->
      exists langs, availableLanguages l = Ok langs).
Proof.
  intros Hreach. split.
  - assert (H : forall langs,
              _availableLanguages l = Some langs -> langs <> []).
    { destruct Hreach as [options Hsteps].
      remember (constructor options) as l0 eqn:Hl0.
      induction Hsteps as [l|l l' op w Hsteps IH].
      - subst. unfold constructor. destruct (defaults options).
        simpl. discriminate.
      - apply (run_op_nonempty op l' w). auto. }
    intros langs. unfold availableLanguages.
    destruct (_availableLanguages l) as [langs'|]; [|discriminate].
    intros [= <-]. apply H. reflexivity.
  - intros Hi Hd.
    destruct (reachable_ready l Hreach Hi Hd) as (langs & _ & _ & _ & Hav & _).
    exists langs. unfold availableLanguages. rewrite Hav. reflexivity.
Qed.

(** X14: an [initialize] that throws on an instance not yet initialized
    leaves it not initialized and leaves [disposed] alone; with an empty
    dictionary it throws the empty-dictionary error before the recorder or
    the preset is asked, and the three getters answer as before. *)
Theorem initialize_failure l w reset :
  initialized l = false ->
  (forall d e l' w',
     initialize d reset (l, w) = (Throw e, (l', w')) ->
     initialized l' = false /\ disposed l' = disposed l)
  /\ initialize [] reset (l, w)
     = (Throw EmptyDictionaryError, (setData (Some []) l, w))
  /\ availableLanguages (setData (Some []) l) = availableLanguages l
  /\ speaking (setData (Some []) l) = speaking l
  /\ says (setData (Some []) l) = says l.
Proof.
  intros Hi. unfold initialized, disposed in *.
  split; [|split; [apply initialize_empty, Hi | repeat split]].
  intros d e l' w'. rewrite initialize_eq, Hi.
  pose proof (internalUpdate_frame l w d reset) as ((_ & _ & Hi' & Hd') & _).
  unfold after in Hi', Hd'.
  destruct (internalUpdate d reset (l, w)) as [[[]|e'] [l1 w1]];
    [discriminate|].
  intros [= _ <- _]. simpl in *. split; congruence.
Qed.

(** X1: a newly constructed instance, whatever the options, is neither
    initialized nor disposed; its three getters throw the not-ready error,
    and so do [update], [speak] and [resetLanguage], which leave it and the
    world untouched. *)
Theorem fresh_instance_not_ready (options : option (Options W)) w :
  initialized (constructor options) = false
  /\ disposed (constructor options) = false
  /\ availableLanguages (constructor options) = Throw NotReadyError
  /\ speaking (constructor options) = Throw NotReadyError
  /\ says (constructor options) = Throw NotReadyError
  /\ (forall d reset,
        update d reset (constructor options, w)
        = (Throw NotReadyError, (constructor options, w)))
  /\ (forall k,
        speak k (constructor options, w)
        = (Throw NotReadyError, (constructor options, w)))
  /\ resetLanguage (constructor options, w)
     = (Throw NotReadyError, (constructor options, w)).
Proof.
  unfold constructor. destruct (defaults options) as [r p].
  repeat split.
Qed.


End MachineProperties.

(** ** The browser scenarios *)

Lemma recorder_remembers : remembers (recorder (W := Browser)).
Proof.
  intros lang w w'. unfold recorder. simpl.
  destruct (writable w); [|discriminate].
  intros [= <-]. simpl. rewrite lookup_insert_eq. reflexivity.
Qed.

Lemma reachable_initialize (options : option (Options Browser))
    (d : Dictionary) (reset : bool) (w : Browser) :
  reachable (after (initialize d reset) (constructor options) w).
Proof.
  exists options.
  exact (steps_call _ _ (OpInitialize d reset) w (steps_refl _)).
Qed.

(** C1, at two inputs where the code breaks it.  The recorder remembers fr
    and the dictionary has en and zh: [initialize] returns, the instance is
    initialized and not disposed, and it speaks fr, which is not an
    available language.  An instance speaking zh is updated with a
    dictionary that has only en: [update] returns and the instance still
    speaks zh. *)
Theorem membership_not_kept_by_internalUpdate :
  (result_of (initialize fetched false) (constructor None) (presetSaved "fr")
   = Ok tt
   /\ initialized
        (after (initialize fetched false) (constructor None) (presetSaved "fr"))
      = true
   /\ disposed
        (after (initialize fetched false) (constructor None) (presetSaved "fr"))
      = false
   /\ availableLanguages
        (after (initialize fetched false) (constructor None) (presetSaved "fr"))
      = Ok ["en"; "zh"]
   /\ speaking
        (after (initialize fetched false) (constructor None) (presetSaved "fr"))
      = Ok "fr"
   /\ ~ In "fr" ["en"; "zh"])
  /\ (speaking langer_zh = Ok "zh"
      /\ result_of (update only_en false) langer_zh (presetSaved "zh") = Ok tt
      /\ availableLanguages
           (after (update only_en false) langer_zh (presetSaved "zh"))
         = Ok ["en"]
      /\ speaking (after (update only_en false) langer_zh (presetSaved "zh"))
         = Ok "zh"
      /\ ~ In "zh" ["en"]).
Proof.
  split.
  - repeat split; try reflexivity. intros [H|[H|[]]]; discriminate.
  - repeat split; try reflexivity. intros [H|[]]; discriminate.
Qed.

(** C2 fails as stated: [speak] of the available key zh on an instance
    speaking en, when the recorder write throws, lets the error through
    with the current language switched to zh and the payload still the one
    of en. *)
Lemma speak_failed_write_counterexample :
  initialized langer_en = true /\ disposed langer_en = false
  /\ availableLanguages langer_en = Ok ["en"; "zh"]
  /\ says langer_en = Ok (get_prop fetched "en")
  /\ result_of (speak "zh") langer_en (storage_full browser_en)
     = Throw (HostError "QuotaExceededError")
  /\ speaking (after (speak "zh") langer_en (storage_full browser_en))
     = Ok "zh"
  /\ says (after (speak "zh") langer_en (storage_full browser_en))
     = Ok (get_prop fetched "en")
  /\ says (after (speak "zh") langer_en (storage_full browser_en))
     <> Ok (get_prop fetched "zh").
Proof. repeat split; try reflexivity. discriminate. Qed.

(** C3, at two inputs where the code breaks it.  With the fixed preset ja
    and the dictionary en, zh, [initialize] throws the preset-unavailable
    error and [initialized] stays false, but [availableLanguages], which
    threw before the call, now returns en, zh.  With a recorder whose write
    throws, the failed [initialize] also leaves a current language. *)
Theorem failed_initialize_leaves_state :
  (availableLanguages (constructor preset_ja) = Throw NotReadyError
   /\ result_of (initialize fetched false) (constructor preset_ja) clearSaved
      = Throw (PresetUnavailableError "ja" ["en"; "zh"])
   /\ initialized
        (after (initialize fetched false) (constructor preset_ja) clearSaved)
      = false
   /\ availableLanguages
        (after (initialize fetched false) (constructor preset_ja) clearSaved)
      = Ok ["en"; "zh"])
  /\ (speaking (constructor (W := Browser) None) = Throw NotReadyError
      /\ result_of (initialize fetched false) (constructor None)
           (storage_full clearSaved)
         = Throw (HostError "QuotaExceededError")
      /\ initialized
           (after (initialize fetched false) (constructor None)
              (storage_full clearSaved))
         = false
      /\ speaking
           (after (initialize fetched false) (constructor None)
              (storage_full clearSaved))
         = Ok "en").
Proof. repeat split; reflexivity. Qed.

(** C4, at an input where the code breaks it.  An instance speaking zh is
    updated, without reset, with a dictionary that has only en: [update]
    returns, the instance still speaks zh and its payload is the absent
    value, whereas a reset on the new dictionary resolves en. *)
Theorem update_keeps_missing_language :
  speaking langer_zh = Ok "zh"
  /\ ~ In "zh" (Object_keys only_en)
  /\ result_of (update only_en false) langer_zh (presetSaved "zh") = Ok tt
  /\ speaking (after (update only_en false) langer_zh (presetSaved "zh"))
     = Ok "zh"
  /\ _says (after (update only_en false) langer_zh (presetSaved "zh"))
     = VUndefined
  /\ says (after (update only_en false) langer_zh (presetSaved "zh"))
     = Throw NotReadyError
  /\ result_of resetLanguage (loaded only_en langer_zh) (presetSaved "zh")
     = Ok "en"
  /\ speaking (after (update only_en true) langer_zh (presetSaved "zh"))
     = Ok "en".
Proof.
  repeat split; try reflexivity. intros [H|[]]; discriminate.
Qed.

(** C6 fails as stated: on an instance that was initialized and then
    disposed, [initialize] throws the already-initialized error, not the
    not-ready error. *)
Lemma initialize_after_dispose_counterexample :
  initialized langer_en = true
  /\ result_of dispose langer_en browser_en = Ok tt
  /\ result_of (initialize fetched false)
       (after dispose langer_en browser_en) browser_en
     = Throw AlreadyInitializedError
  /\ result_of (initialize fetched false)
       (after dispose langer_en browser_en) browser_en
     <> Throw NotReadyError.
Proof. repeat split; try reflexivity. discriminate. Qed.

(** An instance disposed before it was ever initialized: [initialize] gets
    past its guard, stores the dictionary and its key list and then throws
    on the released recorder, after which [availableLanguages] returns. *)
Lemma initialize_after_early_dispose :
  initialized (after dispose (constructor None) clearSaved) = false
  /\ disposed (after dispose (constructor None) clearSaved) = true
  /\ result_of (initialize fetched false)
       (after dispose (constructor None) clearSaved) clearSaved
     = Throw TypeError
  /\ availableLanguages
       (after (initialize fetched false)
          (after dispose (constructor None) clearSaved) clearSaved)
     = Ok ["en"; "zh"].
Proof. repeat split; reflexivity. Qed.

(** C10 fails as stated: the previous dictionary has the key constructor;
    after [update({})] has thrown, [speak('constructor')] returns and the
    payload it stores is not absent, it is the member every plain object
    inherits under that name, so [says] returns. *)
Lemma update_empty_inherited_counterexample :
  initialized langer_constructor = true
  /\ disposed langer_constructor = false
  /\ availableLanguages langer_constructor = Ok ["constructor"]
  /\ result_of (update [] false) langer_constructor clearSaved
     = Throw EmptyDictionaryError
  /\ availableLanguages (after (update [] false) langer_constructor clearSaved)
     = Ok ["constructor"]
  /\ _data (after (update [] false) langer_constructor clearSaved) = Some []
  /\ result_of (speak "constructor")
       (after (update [] false) langer_constructor clearSaved) clearSaved
     = Ok tt
  /\ says (after (speak "constructor")
             (after (update [] false) langer_constructor clearSaved)
             clearSaved)
     = Ok (VInherited "constructor")
  /\ says (after (speak "constructor")
             (after (update [] false) langer_constructor clearSaved)
             clearSaved)
     <> Throw NotReadyError.
Proof. repeat split; try reflexivity. discriminate. Qed.

(** ** The theorems at the scenarios of the test suite *)

(** [speak('ja')] on the instance initialized with [fetched]: the message
    lists en,zh. *)
Lemma speak_unavailable_witness :
  reachable langer_en /\ initialized langer_en = true
  /\ disposed langer_en = false /\ ~ In "ja" ["en"; "zh"]
  /\ speak "ja" (langer_en, browser_en)
     = (Throw (LanguageUnavailableError "ja" ["en"; "zh"]),
        (langer_en, browser_en))
  /\ message (LanguageUnavailableError "ja" ["en"; "zh"])
     = ("[langer] Cannot speak the " ++ dquote ++ "ja" ++ dquote
        ++ " language that are not on the available languages(en,zh).")%string.
Proof.
  assert (Hreach : reachable langer_en) by apply reachable_initialize.
  assert (Hnot : ~ In "ja" ["en"; "zh"])
    by (intros [H|[H|[]]]; discriminate).
  destruct (speak_unavailable langer_en browser_en "ja" Hreach eq_refl eq_refl)
    as (langs & Hav & Hspeak).
  change (Ok ["en"; "zh"] = Ok langs) in Hav. injection Hav as <-.
  destruct (Hspeak Hnot) as [Hthrow _].
  repeat split; try assumption; reflexivity.
Defined.

(** [speak('zh')] on the instance speaking en, in a browser whose storage
    refuses the write. *)
Lemma speak_switch_witness :
  reachable langer_en /\ initialized langer_en = true
  /\ disposed langer_en = false
  /\ exists langs d (r : Recorder Browser) (p : Preset Browser),
       availableLanguages langer_en = Ok langs /\ _data langer_en = Some d
       /\ _recorder langer_en = Some r /\ _preset langer_en = Some p
       /\ (In "zh" langs ->
           speak "zh" (langer_en, storage_full browser_en) =
             match set r "zh" (storage_full browser_en) with
             | (Ok _, w') => (Ok tt, (switched d "zh" langer_en, w'))
             | (Throw e, w') =>
                 (Throw e, (setCurrLanguage (Some "zh") langer_en, w'))
             end)
       /\ (forall w1,
             preset_result p langs (storage_full browser_en) = (Ok "zh", w1) ->
             In "zh" langs ->
             resetLanguage (langer_en, storage_full browser_en) =
               match set r "zh" w1 with
               | (Ok _, w') => (Ok "zh", (switched d "zh" langer_en, w'))
               | (Throw e, w') =>
                   (Throw e, (setCurrLanguage (Some "zh") langer_en, w'))
               end)
       /\ _currLanguage (switched d "zh" langer_en) = Some "zh"
       /\ _says (switched d "zh" langer_en) = get_prop d "zh"
       /\ _currLanguage (setCurrLanguage (Some "zh") langer_en) = Some "zh"
       /\ _says (setCurrLanguage (Some "zh") langer_en) = _says langer_en.
Proof.
  assert (Hreach : reachable langer_en) by apply reachable_initialize.
  repeat split; try assumption.
  exact (speak_switch langer_en (storage_full browser_en) "zh"
           Hreach eq_refl eq_refl).
Defined.

(** The dictionary maps en to the empty string: [speak('en')] returns and
    [says] throws. *)
Lemma says_falsy_payload_witness :
  initialized langer_blank = true /\ disposed langer_blank = false
  /\ _data langer_blank = Some blank
  /\ speak "en" (langer_blank, clearSaved)
     = (Ok tt, (after (speak "en") langer_blank clearSaved,
                world_after (speak "en") langer_blank clearSaved))
  /\ truthy (get_prop blank "en") = false
  /\ initialized (after (speak "en") langer_blank clearSaved) = true
  /\ disposed (after (speak "en") langer_blank clearSaved) = false
  /\ says (after (speak "en") langer_blank clearSaved) = Throw NotReadyError.
Proof.
  destruct (says_falsy_payload langer_blank clearSaved "en" blank
              (after (speak "en") langer_blank clearSaved)
              (world_after (speak "en") langer_blank clearSaved)
              eq_refl eq_refl eq_refl eq_refl eq_refl)
    as (Hi & Hd & _ & _ & Hsays & _).
  repeat split; try assumption; reflexivity.
Defined.

(** [update({})] on the instance initialized with [fetched]. *)
Lemma update_empty_not_atomic_witness :
  reachable langer_en /\ initialized langer_en = true
  /\ disposed langer_en = false
  /\ update [] false (langer_en, browser_en)
     = (Throw EmptyDictionaryError, (setData (Some []) langer_en, browser_en))
  /\ availableLanguages (setData (Some []) langer_en) = Ok ["en"; "zh"]
  /\ ~ In "zh" Object_prototype_keys
  /\ says (after (speak "zh") (setData (Some []) langer_en) browser_en)
     = Throw NotReadyError.
Proof.
  assert (Hreach : reachable langer_en) by apply reachable_initialize.
  destruct (update_empty_not_atomic langer_en browser_en false
              Hreach eq_refl eq_refl)
    as (langs & r & Hav & Hr & Hupd & _ & Hav' & _ & Hspeak).
  change (Ok ["en"; "zh"] = Ok langs) in Hav. injection Hav as <-.
  change (Some recorder = Some r) in Hr. injection Hr as <-.
  assert (Hset : set recorder "zh" browser_en
                 = (Ok tt, snd (set recorder "zh" browser_en)))
    by reflexivity.
  assert (Hnot : ~ In "zh" Object_prototype_keys).
  { intros Hin. apply includes_In in Hin. discriminate. }
  destruct (Hspeak "zh" browser_en _ (or_intror (or_introl eq_refl)) Hset)
    as (Heq & _ & Habsent & _).
  destruct (Habsent Hnot) as [_ Hsays].
  split; [exact Hreach|]. split; [reflexivity|]. split; [reflexivity|].
  split; [exact Hupd|]. split; [exact Hav'|]. split; [exact Hnot|].
  exact Hsays.
Defined.

(** [dispose()] on the instance initialized with [fetched]. *)
Lemma dispose_poisons_witness :
  dispose (langer_en, browser_en)
  = (Ok tt, (after dispose langer_en browser_en, browser_en))
  /\ speaking (after dispose langer_en browser_en) = Throw NotReadyError
  /\ speak "en" (after dispose langer_en browser_en, browser_en)
     = (Throw NotReadyError, (after dispose langer_en browser_en, browser_en))
  /\ dispose (after dispose langer_en browser_en, browser_en)
     = (Throw AlreadyDisposedError,
        (after dispose langer_en browser_en, browser_en))
  /\ initialize fetched false (after dispose langer_en browser_en, browser_en)
     = (Throw AlreadyInitializedError,
        (after dispose langer_en browser_en, browser_en)).
Proof.
  destruct (dispose_poisons langer_en browser_en
              (after dispose langer_en browser_en) browser_en eq_refl)
    as (_ & _ & _ & Hspeaking & _ & _ & Hspeak & _ & Hdispose & Hinit).
  destruct (Hinit eq_refl) as [Hinitialize _].
  repeat split; auto.
Defined.

(** The recorder test: after [speak('zh')] on one instance, a fresh one
    initialized with [updated] speaks zh, and one initialized with reset
    speaks the preset en. *)
Lemma remember_reset_dispatch_witness :
  remembers (recorder (W := Browser))
  /\ speak "zh" (langer_en, browser_en)
     = (Ok tt, (after (speak "zh") langer_en browser_en,
                world_after (speak "zh") langer_en browser_en))
  /\ In "zh" (Object_keys updated)
  /\ speaking
       (after (initialize updated false) (constructor None)
          (world_after (speak "zh") langer_en browser_en))
     = Ok "zh"
  /\ speaking
       (after (initialize updated true) (constructor None)
          (world_after (speak "zh") langer_en browser_en))
     = Ok "en".
Proof.
  assert (Hin : In "zh" (Object_keys updated))
    by (right; left; reflexivity).
  destruct (remember_reset_dispatch recorder (snd getDefOptions) None
              langer_en browser_en
              (after (speak "zh") langer_en browser_en)
              (world_after (speak "zh") langer_en browser_en)
              "zh" updated
              recorder_remembers eq_refl eq_refl eq_refl eq_refl Hin)
    as [[Hspeaking _] Hreset].
  repeat split; try assumption; try reflexivity.
  exact recorder_remembers.
Defined.

(** ** The further properties at the scenarios of the test suite *)

Lemma reachable_disposed : reachable (after dispose langer_en browser_en).
Proof.
  exists None.
  exact (steps_call _ _ OpDispose browser_en
           (steps_call _ _ (OpInitialize fetched false) clearSaved
              (steps_refl _))).
Qed.

(** [new Langer().initialize(fetched)], then a second [initialize]. *)
Lemma initialize_installs_witness :
  initialize fetched false (constructor None, clearSaved)
  = (Ok tt, (langer_en, browser_en))
  /\ initialized langer_en = true
  /\ availableLanguages langer_en = Ok ["en"; "zh"]
  /\ initialize updated true (langer_en, browser_en)
     = (Throw AlreadyInitializedError, (langer_en, browser_en)).
Proof.
  assert (Hrun : initialize fetched false (constructor None, clearSaved)
                 = (Ok tt, (langer_en, browser_en))) by reflexivity.
  destruct (initialize_installs (constructor None) clearSaved fetched false
              langer_en browser_en Hrun)
    as (_ & _ & Hi & _ & Hav & _ & Hagain).
  split; [exact Hrun|]. split; [exact Hi|]. split; [exact Hav|].
  apply Hagain.
Defined.

(** [update(updated)] on the instance initialized with [fetched]. *)
Lemma update_installs_witness :
  update updated false (langer_en, browser_en)
  = (Ok tt, (after (update updated false) langer_en browser_en,
             world_after (update updated false) langer_en browser_en))
  /\ availableLanguages (after (update updated false) langer_en browser_en)
     = Ok ["en"; "zh"; "ja"]
  /\ _data (after (update updated false) langer_en browser_en)
     = Some updated.
Proof.
  assert (Hrun : update updated false (langer_en, browser_en)
                 = (Ok tt,
                    (after (update updated false) langer_en browser_en,
                     world_after (update updated false) langer_en browser_en)))
    by (vm_compute; reflexivity).
  destruct (update_installs langer_en browser_en updated false _ _ Hrun)
    as (_ & _ & _ & _ & _ & Hav & Hdata).
  split; [exact Hrun|]. split; [exact Hav | exact Hdata].
Defined.

(** [speak('zh')] on the instance speaking en: zh is spoken, paid out and
    remembered. *)
Lemma success_lock_step_witness :
  OpSpeak "zh" <> OpDispose
  /\ run_op (OpSpeak "zh") (langer_en, browser_en)
     = (Ok tt, (after (speak "zh") langer_en browser_en,
                world_after (speak "zh") langer_en browser_en))
  /\ exists k d (r : Recorder Browser) w1,
       _currLanguage (after (speak "zh") langer_en browser_en) = Some k
       /\ _data (after (speak "zh") langer_en browser_en) = Some d
       /\ _says (after (speak "zh") langer_en browser_en) = get_prop d k
       /\ _recorder (after (speak "zh") langer_en browser_en) = Some r
       /\ set r k w1
          = (Ok tt, world_after (speak "zh") langer_en browser_en)
       /\ (remembers r ->
           fst (get r (world_after (speak "zh") langer_en browser_en))
           = Ok (Some k)).
Proof.
  assert (Hop : OpSpeak "zh" <> OpDispose) by discriminate.
  assert (Hrun : run_op (OpSpeak "zh") (langer_en, browser_en)
                 = (Ok tt, (after (speak "zh") langer_en browser_en,
                            world_after (speak "zh") langer_en browser_en)))
    by reflexivity.
  split; [exact Hop|]. split; [exact Hrun|].
  exact (success_lock_step (OpSpeak "zh") langer_en browser_en _ _ Hop Hrun).
Defined.

Lemma speak_returns_witness :
  speak "zh" (langer_en, browser_en)
  = (Ok tt, (after (speak "zh") langer_en browser_en,
             world_after (speak "zh") langer_en browser_en))
  /\ exists langs d (r : Recorder Browser),
       availableLanguages langer_en = Ok langs /\ In "zh" langs
       /\ _data langer_en = Some d /\ _recorder langer_en = Some r
       /\ set r "zh" browser_en
          = (Ok tt, world_after (speak "zh") langer_en browser_en)
       /\ after (speak "zh") langer_en browser_en
          = switched d "zh" langer_en
       /\ availableLanguages (after (speak "zh") langer_en browser_en)
          = Ok langs.
Proof.
  assert (Hrun : speak "zh" (langer_en, browser_en)
                 = (Ok tt, (after (speak "zh") langer_en browser_en,
                            world_after (speak "zh") langer_en browser_en)))
    by reflexivity.
  split; [exact Hrun|].
  exact (speak_returns langer_en browser_en "zh" _ _ Hrun).
Defined.

(** [resetLanguage()] on the instance speaking zh returns the preset en. *)
Lemma resetLanguage_returns_witness :
  resetLanguage (langer_zh, presetSaved "zh")
  = (Ok "en", (after resetLanguage langer_zh (presetSaved "zh"),
               world_after resetLanguage langer_zh (presetSaved "zh")))
  /\ exists langs (p : Preset Browser) d w1,
       availableLanguages langer_zh = Ok langs /\ _preset langer_zh = Some p
       /\ preset_result p langs (presetSaved "zh") = (Ok "en", w1)
       /\ In "en" langs /\ _data langer_zh = Some d
       /\ after resetLanguage langer_zh (presetSaved "zh")
          = switched d "en" langer_zh
       /\ availableLanguages (after resetLanguage langer_zh (presetSaved "zh"))
          = Ok langs.
Proof.
  assert (Hrun : resetLanguage (langer_zh, presetSaved "zh")
                 = (Ok "en",
                    (after resetLanguage langer_zh (presetSaved "zh"),
                     world_after resetLanguage langer_zh (presetSaved "zh"))))
    by reflexivity.
  split; [exact Hrun|].
  exact (resetLanguage_returns langer_zh (presetSaved "zh") "en" _ _ Hrun).
Defined.

(** The instance with the fixed preset ja, once [fetched] is loaded. *)
Lemma resetLanguage_rejects_witness :
  _availableLanguages langer_ja = Some ["en"; "zh"]
  /\ _preset langer_ja = Some (PresetKey "ja")
  /\ ~ In "ja" ["en"; "zh"]
  /\ resetLanguage (langer_ja, clearSaved)
     = (Throw (PresetUnavailableError "ja" ["en"; "zh"]),
        (langer_ja, clearSaved))
  /\ message (PresetUnavailableError "ja" ["en"; "zh"])
     = ("[langer] The preset language " ++ dquote ++ "ja" ++ dquote
        ++ " is not on the available languages(en,zh).")%string.
Proof.
  assert (Hnot : ~ In "ja" ["en"; "zh"])
    by (intros [H|[H|[]]]; discriminate).
  assert (Hav : _availableLanguages langer_ja = Some ["en"; "zh"])
    by reflexivity.
  assert (Hp : _preset langer_ja = Some (PresetKey "ja")) by reflexivity.
  destruct (resetLanguage_rejects langer_ja clearSaved ["en"; "zh"]
              (PresetKey "ja") Hav Hp) as [Hkey _].
  assert (Hpre : preset_result (PresetKey "ja") ["en"; "zh"] clearSaved
                 = (Ok "ja", clearSaved)) by reflexivity.
  destruct (Hkey "ja" clearSaved Hpre Hnot) as [Hthrow Hmsg].
  split; [exact Hav|]. split; [exact Hp|]. split; [exact Hnot|].
  split; [exact Hthrow | reflexivity].
Defined.

Lemma resetLanguage_default_preset_witness :
  reachable langer_zh /\ initialized langer_zh = true
  /\ disposed langer_zh = false
  /\ _preset langer_zh = Some default_preset
  /\ exists langs d (r : Recorder Browser),
       availableLanguages langer_zh = Ok langs /\ _data langer_zh = Some d
       /\ _recorder langer_zh = Some r
       /\ resetLanguage (langer_zh, presetSaved "zh") =
            match presetLanguage langs
                    (navigator_languages (presetSaved "zh")) with
            | Ok k =>
                match set r k (presetSaved "zh") with
                | (Ok _, w') => (Ok k, (switched d k langer_zh, w'))
                | (Throw e, w') =>
                    (Throw e, (setCurrLanguage (Some k) langer_zh, w'))
                end
            | Throw _ => (Throw NoMatchError, (langer_zh, presetSaved "zh"))
            end.
Proof.
  assert (Hreach : reachable langer_zh) by apply reachable_initialize.
  assert (Hi : initialized langer_zh = true) by reflexivity.
  assert (Hd : disposed langer_zh = false) by reflexivity.
  assert (Hp : _preset langer_zh = Some default_preset) by reflexivity.
  repeat (split; [assumption|]).
  exact (resetLanguage_default_preset langer_zh (presetSaved "zh")
           Hreach Hi Hd Hp).
Defined.

(** The recorder test's first line: nothing is remembered, en is preset
    and stored. *)
Lemma first_visit_presets_witness :
  truthy_opt (localStorage_getItem LOCAL_STORAGE_KEY clearSaved) = false
  /\ presetLanguage (Object_keys fetched) (navigator_languages clearSaved)
     = Ok "en"
  /\ localStorage_setItem LOCAL_STORAGE_KEY "en" clearSaved
     = (Ok tt, browser_en)
  /\ initialize fetched false (constructor None, clearSaved)
     = (Ok tt,
        (setInitialized
           (switched fetched "en" (loaded fetched (constructor None))),
         browser_en))
  /\ storage browser_en !! LOCAL_STORAGE_KEY = Some "en".
Proof.
  assert (Hget : truthy_opt (localStorage_getItem LOCAL_STORAGE_KEY clearSaved)
                 = false) by reflexivity.
  assert (Hpre : presetLanguage (Object_keys fetched)
                   (navigator_languages clearSaved) = Ok "en")
    by reflexivity.
  assert (Hset : localStorage_setItem LOCAL_STORAGE_KEY "en" clearSaved
                 = (Ok tt, browser_en)) by reflexivity.
  destruct (first_visit_presets fetched "en" clearSaved browser_en
              Hget Hpre Hset) as [Hinit _].
  split; [exact Hget|]. split; [exact Hpre|]. split; [exact Hset|].
  split; [exact Hinit | reflexivity].
Defined.

Lemma initialize_unremembered_is_reset_witness :
  initialized (constructor (W := Browser) None) = false
  /\ truthy_opt (_currLanguage (constructor (W := Browser) None)) = false
  /\ fetched <> []
  /\ get recorder clearSaved = (Ok None, clearSaved)
  /\ initialize fetched false (constructor None, clearSaved)
     = initialize fetched true (constructor None, clearSaved).
Proof.
  assert (Hne : fetched <> []) by discriminate.
  assert (Hget : get recorder clearSaved = (Ok None, clearSaved))
    by reflexivity.
  split; [reflexivity|]. split; [reflexivity|]. split; [exact Hne|].
  split; [exact Hget|].
  exact (initialize_unremembered_is_reset (constructor None) clearSaved
           fetched recorder None clearSaved
           eq_refl eq_refl eq_refl Hne Hget eq_refl).
Defined.

(** The normal test: the instance speaking zh is updated with [updated],
    which still has zh. *)
Lemma update_keeps_available_language_witness :
  initialized langer_zh = true /\ disposed langer_zh = false
  /\ speaking langer_zh = Ok "zh" /\ In "zh" (Object_keys updated)
  /\ update updated false (langer_zh, presetSaved "zh")
     = (Ok tt, (switched updated "zh" (loaded updated langer_zh),
                presetSaved "zh"))
  /\ speaking (switched updated "zh" (loaded updated langer_zh)) = Ok "zh"
  /\ _says (switched updated "zh" (loaded updated langer_zh))
     = get_prop updated "zh".
Proof.
  assert (Hin : In "zh" (Object_keys updated)) by (right; left; reflexivity).
  assert (Hi : initialized langer_zh = true) by reflexivity.
  assert (Hd : disposed langer_zh = false) by reflexivity.
  assert (Hr : _recorder langer_zh = Some recorder) by reflexivity.
  assert (Hsp : speaking langer_zh = Ok "zh") by reflexivity.
  assert (Hset : set recorder "zh" (presetSaved "zh")
                 = (Ok tt, presetSaved "zh")) by reflexivity.
  destruct (update_keeps_available_language langer_zh (presetSaved "zh")
              updated "zh" recorder (presetSaved "zh")
              Hi Hd Hr Hsp Hin Hset)
    as (Hupd & Hspeaking & Hsays & _).
  repeat (split; [assumption|]). exact Hsays.
Defined.

(** After [dispose()], every call of the normal test's tail throws. *)
Lemma disposed_rejects_everything_witness :
  reachable (after dispose langer_en browser_en)
  /\ disposed (after dispose langer_en browser_en) = true
  /\ (exists e,
        result_of (run_op (OpSpeak "en")) (after dispose langer_en browser_en)
          browser_en = Throw e)
  /\ (exists e,
        result_of (run_op (OpInitialize fetched true))
          (after dispose langer_en browser_en) browser_en = Throw e).
Proof.
  pose proof reachable_disposed as Hreach.
  assert (Hd : disposed (after dispose langer_en browser_en) = true)
    by reflexivity.
  pose proof (disposed_rejects_everything
                (after dispose langer_en browser_en) Hreach Hd) as Hall.
  split; [exact Hreach|]. split; [exact Hd|]. split; apply Hall.
Defined.

Lemma availableLanguages_invariant_witness :
  reachable langer_en
  /\ (forall langs, availableLanguages langer_en = Ok langs -> langs <> [])
  /\ (initialized langer_en = true -> disposed langer_en = false ->
      exists langs, availableLanguages langer_en = Ok langs).
Proof.
  assert (Hreach : reachable langer_en) by apply reachable_initialize.
  split; [exact Hreach|].
  exact (availableLanguages_invariant langer_en Hreach).
Defined.

(** The error test: [initialize({})] on a new instance. *)
Lemma initialize_failure_witness :
  initialized (constructor (W := Browser) None) = false
  /\ initialize [] false (constructor None, clearSaved)
     = (Throw EmptyDictionaryError,
        (setData (Some []) (constructor None), clearSaved))
  /\ initialized (setData (Some []) (constructor (W := Browser) None)) = false
  /\ availableLanguages (setData (Some []) (constructor (W := Browser) None))
     = Throw NotReadyError.
Proof.
  assert (Hfresh : initialized (constructor (W := Browser) None) = false)
    by reflexivity.
  destruct (initialize_failure (constructor None) clearSaved false Hfresh)
    as (Hflag & Hempty & Hav & _).
  destruct (Hflag [] _ _ _ Hempty) as [Hi _].
  split; [exact Hfresh|]. split; [exact Hempty|]. split; [exact Hi|].
  rewrite Hav. reflexivity.
Defined.

Lemma presetLanguage_returns_available_witness :
  presetLanguage ["en"; "zh"] priorities = Ok "en"
  /\ In "en" ["en"; "zh"] /\ "en" <> EmptyString
  /\ exists p, In p priorities
               /\ ("en" = p \/ "en" = split_first "-"%char p).
Proof.
  assert (Hpre : presetLanguage ["en"; "zh"] priorities = Ok "en")
    by reflexivity.
  split; [exact Hpre|].
  exact (presetLanguage_returns_available ["en"; "zh"] priorities "en" Hpre).
Defined.

Lemma presetLanguage_same_keys_witness :
  (forall x, In x ["en"; "zh"] <-> In x ["zh"; "en"; "en"])
  /\ presetLanguage ["en"; "zh"] priorities
     = presetLanguage ["zh"; "en"; "en"] priorities.
Proof.
  assert (Hsame : forall x, In x ["en"; "zh"] <-> In x ["zh"; "en"; "en"])
    by (intros x; simpl; tauto).
  split; [exact Hsame|].
  exact (presetLanguage_same_keys _ _ priorities Hsame).
Defined.

Lemma presetLanguage_skips_unmatched_witness :
  Forall (unmatched ["en"; "zh"]) ["ja"; "fr-FR"]
  /\ presetLanguage ["en"; "zh"] (["ja"; "fr-FR"] ++ ["zh"])
     = presetLanguage ["en"; "zh"] ["zh"].
Proof.
  assert (Hall : Forall (unmatched ["en"; "zh"]) ["ja"; "fr-FR"]).
  { repeat constructor; intros [H|[H|[]]]; discriminate. }
  split; [exact Hall|].
  exact (presetLanguage_skips_unmatched ["en"; "zh"] ["ja"; "fr-FR"] ["zh"]
           Hall).
Defined.

Lemma presetLanguage_stops_at_first_match_witness :
  first_match ["en"; "zh"] ["en-US"] "en"
  /\ presetLanguage ["en"; "zh"] (["en-US"] ++ ["zh"])
     = presetLanguage ["en"; "zh"] ["en-US"].
Proof.
  assert (Hk : first_match ["en"; "zh"] ["en-US"] "en").
  { apply first_match_cons_matched. right.
    repeat split; [intros [H|[H|[]]]; discriminate | left; reflexivity]. }
  split; [exact Hk|].
  exact (presetLanguage_stops_at_first_match ["en"; "zh"] ["en-US"] ["zh"]
           "en" Hk).
Defined.

(** * The driver-based class *)

Section DrivenProperties.

Context {W : Type} {host : Host W}.

Import Driven.

Implicit Types (l : Langer W) (w : W) (k : string).

(** *** The calls in closed form *)

(** [speak]: the availability test, then the driver's payload, which must
    be truthy, then the payload is assigned, then the recorder is written,
    and the current language is assigned last. *)
Lemma driven_speak_eq l w k :
  speak k (l, w) =
    match _availableLanguages l with
    | None => (Throw NotReadyError, (l, w))
    | Some langs =>
        if includes langs k then
          match _driver l with
          | None => (Throw DriverNotDetectedError, (l, w))
          | Some d =>
              match onSpeakingChange d k w with
              | (Throw e, w1) => (Throw e, (l, w1))
              | (Ok v, w1) =>
                  if truthy v then
                    match _recorder l with
                    | None => (Throw TypeError, (setSays v l, w1))
                    | Some r =>
                        match set r k w1 with
                        | (Ok _, w2) =>
                            (Ok tt,
                             (setCurrLanguage (Some k) (setSays v l), w2))
                        | (Throw e, w2) => (Throw e, (setSays v l, w2))
                        end
                    end
                  else (Throw (NoValueError k), (l, w1))
              end
          end
        else (Throw (LanguageUnavailableError k langs), (l, w))
    end.
Proof.
  unfold speak, Langer_onSpeakingChange, setRecord, read, await, assign,
    this, bind, throw, ret, availableLanguages, driver.
  simpl.
  destruct (_availableLanguages l) as [langs|]; [|reflexivity].
  destruct (includes langs k); simpl; [|reflexivity].
  destruct (_driver l) as [d|]; [|reflexivity]. simpl.
  destruct (onSpeakingChange d k w) as [[v|e] w1]; simpl; [|reflexivity].
  destruct (truthy v); simpl; [|reflexivity].
  destruct (_recorder l) as [r|]; simpl; [|reflexivity].
  destruct (set r k w1) as [[[]|e] w2]; reflexivity.
Qed.

(** [restore]: the driver's preset, which must be available, is spoken
    unless it is the current language already. *)
Lemma driven_restore_eq l w :
  restore (l, w) =
    match _availableLanguages l with
    | None => (Throw NotReadyError, (l, w))
    | Some langs =>
        match _driver l with
        | None => (Throw DriverNotDetectedError, (l, w))
        | Some d =>
            match onPresetLanguage d langs w with
            | (Throw e, w1) => (Throw e, (l, w1))
            | (Ok lang, w1) =>
                if includes langs lang then
                  if differs lang (_currLanguage l) then
                    match speak lang (l, w1) with
                    | (Ok _, st') => (Ok lang, st')
                    | (Throw e, st') => (Throw e, st')
                    end
                  else (Ok lang, (l, w1))
                else (Throw (PresetUnavailableError lang langs), (l, w1))
            end
        end
    end.
Proof.
  unfold restore, Langer_onPresetLanguage, isAvailable, read, await, this,
    bind, throw, ret, availableLanguages, driver.
  simpl.
  destruct (_availableLanguages l) as [langs|] eqn:Hav; [|reflexivity].
  simpl. destruct (_driver l) as [d|]; [|reflexivity]. simpl.
  destruct (onPresetLanguage d langs w) as [[lang|e] w1]; simpl;
    [|reflexivity].
  rewrite Hav. simpl.
  destruct (includes langs lang); simpl; [|reflexivity].
  destruct (differs lang (_currLanguage l)); [|reflexivity].
  destruct (speak lang (l, w1)) as [[[]|e] st']; reflexivity.
Qed.

(** [boost]: nothing on a disposed instance; otherwise the driver's
    languages, which must be an array, replace the available languages,
    and the remembered language is spoken, or the preset restored when
    asked to or when nothing truthy is remembered. *)
Lemma driven_boost_eq l w restore' :
  boost restore' (l, w) =
    if _disposed l then (Throw AlreadyDisposedError, (l, w))
    else
      match _driver l with
      | None => (Throw DriverNotDetectedError, (l, w))
      | Some d =>
          match onAvailableLanguages d w with
          | (Throw e, w1) => (Throw e, (l, w1))
          | (Ok NotArray, w1) => (Throw NotAnArrayError, (l, w1))
          | (Ok (LangArray langs), w1) =>
              if restore' then
                match restore (setAvailableLanguages (Some langs) l, w1) with
                | (Ok _, st') => (Ok tt, st')
                | (Throw e, st') => (Throw e, st')
                end
              else
                match _recorder l with
                | None =>
                    (Throw TypeError,
                     (setAvailableLanguages (Some langs) l, w1))
                | Some r =>
                    match get r w1 with
                    | (Throw e, w2) =>
                        (Throw e, (setAvailableLanguages (Some langs) l, w2))
                    | (Ok (Some k), w2) =>
                        if truthy_string k
                        then speak k (setAvailableLanguages (Some langs) l, w2)
                        else
                          match restore
                                  (setAvailableLanguages (Some langs) l, w2)
                          with
                          | (Ok _, st') => (Ok tt, st')
                          | (Throw e, st') => (Throw e, st')
                          end
                    | (Ok None, w2) =>
                        match restore
                                (setAvailableLanguages (Some langs) l, w2)
                        with
                        | (Ok _, st') => (Ok tt, st')
                        | (Throw e, st') => (Throw e, st')
                        end
                    end
                end
          end
      end.
Proof.
  unfold boost, Langer_onAvailableLanguages, getRecord, read, await, assign,
    this, bind, throw, ret, driver.
  simpl.
  destruct (_disposed l); [reflexivity|]. simpl.
  destruct (_driver l) as [d|]; [|reflexivity]. simpl.
  destruct (onAvailableLanguages d w) as [[[langs|]|e] w1]; simpl;
    try reflexivity.
  destruct restore'; simpl.
  - destruct (restore _) as [[lang|e] st']; reflexivity.
  - destruct (_recorder l) as [r|]; simpl; [|reflexivity].
    destruct (get r w1) as [[[k|]|e] w2]; simpl; try reflexivity.
    destruct (truthy_string k); simpl; reflexivity.
Qed.

Lemma driven_initialize_eq l w restore' (driver' : option (DriverInterface W)) :
  initialize restore' driver' (l, w) =
    if negb (_disposed l) && _initialized l
    then (Throw AlreadyInitializedError, (l, w))
    else
      match boost restore'
              (match driver' with
               | Some d => setDriver (Some d) l
               | None => l
               end, w)
      with
      | (Ok _, (l', w')) => (Ok tt, (setInitialized l', w'))
      | (Throw e, st') => (Throw e, st')
      end.
Proof.
  unfold initialize, adopt, bind, this, assign, throw, ret. simpl.
  destruct (negb (_disposed l) && _initialized l); [reflexivity|].
  destruct driver' as [d|]; simpl;
    destruct (boost restore' _) as [[[]|e] [l' w']]; reflexivity.
Qed.

Lemma driven_reset_eq l w restore' (driver' : option (DriverInterface W)) :
  reset driver' restore' (l, w) =
    if negb (_initialized l) then (Throw NotInitializedError, (l, w))
    else
      boost restore'
        (match driver' with
         | Some d => setDriver (Some d) l
         | None => l
         end, w).
Proof.
  unfold reset, adopt, bind, this, assign, throw, ret. simpl.
  destruct (negb (_initialized l)); [reflexivity|].
  destruct driver' as [d|]; simpl;
    destruct (boost restore' _) as [[[]|e] [l' w']]; reflexivity.
Qed.

Lemma driven_dispose_eq l w :
  dispose (l, w) =
    if _disposed l then (Throw AlreadyDisposedError, (l, w))
    else (Ok tt,
          ({| _driver := None; _recorder := None;
              _availableLanguages := None; _says := VUndefined;
              _currLanguage := None; _initialized := _initialized l;
              _disposed := true |}, w)).
Proof.
  unfold dispose, bind, this, throw, assign. simpl.
  destruct (_disposed l); reflexivity.
Qed.

(** *** What a call that returned has done *)

Lemma driven_differs_false (lang : string) (curr : option string) :
  differs lang curr = false -> curr = Some lang.
Proof.
  destruct curr as [c|]; simpl; [|discriminate].
  destruct (String.eqb_spec lang c) as [->|]; [reflexivity | discriminate].
Qed.

Lemma driven_speak_Ok l w k l' w' :
  speak k (l, w) = (Ok tt, (l', w')) ->
  exists langs (d : DriverInterface W) (r : Recorder W) v w1,
    _availableLanguages l = Some langs /\ In k langs
    /\ _driver l = Some d /\ onSpeakingChange d k w = (Ok v, w1)
    /\ truthy v = true
    /\ _recorder l = Some r /\ set r k w1 = (Ok tt, w')
    /\ l' = setCurrLanguage (Some k) (setSays v l).
Proof.
  rewrite driven_speak_eq.
  destruct (_availableLanguages l) as [langs|]; [|discriminate].
  destruct (includes langs k) eqn:Hin; [|discriminate].
  destruct (_driver l) as [d|]; [|discriminate].
  destruct (onSpeakingChange d k w) as [[v|e] w1] eqn:Hv; [|discriminate].
  destruct (truthy v) eqn:Ht; [|discriminate].
  destruct (_recorder l) as [r|]; [|discriminate].
  destruct (set r k w1) as [[[]|e] w2] eqn:Hset; [|discriminate].
  intros [= <- <-]. exists langs, d, r, v, w1.
  repeat split; auto. apply includes_In, Hin.
Qed.

Lemma driven_speak_Throw l w k e l' w' :
  speak k (l, w) = (Throw e, (l', w')) ->
  l' = l \/ exists v, truthy v = true /\ l' = setSays v l.
Proof.
  rewrite driven_speak_eq.
  destruct (_availableLanguages l) as [langs|]; [|intros [= _ <- _]; auto].
  destruct (includes langs k); [|intros [= _ <- _]; auto].
  destruct (_driver l) as [d|]; [|intros [= _ <- _]; auto].
  destruct (onSpeakingChange d k w) as [[v|e0] w1];
    [|intros [= _ <- _]; auto].
  destruct (truthy v) eqn:Ht; [|intros [= _ <- _]; auto].
  destruct (_recorder l) as [r|]; [|intros [= _ <- _]; eauto].
  destruct (set r k w1) as [[[]|e0] w2]; [discriminate|].
  intros [= _ <- _]. eauto.
Qed.

Lemma driven_restore_Ok l w lang l' w' :
  restore (l, w) = (Ok lang, (l', w')) ->
  exists langs,
    _availableLanguages l = Some langs /\ In lang langs
    /\ ((l' = l /\ _currLanguage l = Some lang)
        \/ exists v, truthy v = true
                     /\ l' = setCurrLanguage (Some lang) (setSays v l)).
Proof.
  rewrite driven_restore_eq.
  destruct (_availableLanguages l) as [langs|] eqn:Hav; [|discriminate].
  destruct (_driver l) as [d|]; [|discriminate].
  destruct (onPresetLanguage d langs w) as [[lang0|e] w1]; [|discriminate].
  destruct (includes langs lang0) eqn:Hin; [|discriminate].
  apply includes_In in Hin.
  destruct (differs lang0 (_currLanguage l)) eqn:Hdiff.
  - destruct (speak lang0 (l, w1)) as [[[]|e] [l1 w2]] eqn:Hspeak;
      [|discriminate].
    intros [= <- <- <-]. exists langs. repeat split; auto.
    destruct (driven_speak_Ok _ _ _ _ _ Hspeak)
      as (_ & _ & _ & v & _ & _ & _ & _ & _ & Ht & _ & _ & ->).
    right. eauto.
  - intros [= <- <- <-]. exists langs. repeat split; auto.
    left. split; [reflexivity | apply driven_differs_false, Hdiff].
Qed.

Lemma driven_restore_Throw l w e l' w' :
  restore (l, w) = (Throw e, (l', w')) ->
  l' = l \/ exists v, truthy v = true /\ l' = setSays v l.
Proof.
  rewrite driven_restore_eq.
  destruct (_availableLanguages l) as [langs|]; [|intros [= _ <- _]; auto].
  destruct (_driver l) as [d|]; [|intros [= _ <- _]; auto].
  destruct (onPresetLanguage d langs w) as [[lang0|e0] w1];
    [|intros [= _ <- _]; auto].
  destruct (includes langs lang0); [|intros [= _ <- _]; auto].
  destruct (differs lang0 (_currLanguage l)); [|discriminate].
  destruct (speak lang0 (l, w1)) as [[[]|e0] [l1 w2]] eqn:Hspeak;
    [discriminate|].
  intros [= _ <- _]. eapply driven_speak_Throw; eauto.
Qed.

(** The ways [boost] ends, by what it left of the instance [l]: with the
    driver's languages [langs] installed, either a current language that
    was there before and is among them, or a new truthy payload with one
    of them as current language. *)
Lemma driven_boost_Ok l w restore' l' w' :
  boost restore' (l, w) = (Ok tt, (l', w')) ->
  _disposed l = false
  /\ exists langs k,
       In k langs
       /\ ((l' = setAvailableLanguages (Some langs) l
            /\ _currLanguage l = Some k)
           \/ exists v, truthy v = true
                /\ l' = setCurrLanguage (Some k)
                          (setSays v (setAvailableLanguages (Some langs) l))).
Proof.
  rewrite driven_boost_eq. intros Hboost.
  destruct (_disposed l); [discriminate|]. split; [reflexivity|].
  destruct (_driver l) as [d|]; [|discriminate].
  destruct (onAvailableLanguages d w) as [[[langs|]|e] w1]; try discriminate.
  assert (Hrestore : forall w0,
            match restore (setAvailableLanguages (Some langs) l, w0) with
            | (Ok _, st') => (Ok tt, st')
            | (Throw e, st') => (Throw e, st')
            end = (Ok tt, (l', w')) ->
            exists langs k,
              In k langs
              /\ ((l' = setAvailableLanguages (Some langs) l
                   /\ _currLanguage l = Some k)
                  \/ exists v, truthy v = true
                       /\ l' = setCurrLanguage (Some k)
                                 (setSays v
                                    (setAvailableLanguages (Some langs) l)))).
  { intros w0.
    destruct (restore (setAvailableLanguages (Some langs) l, w0))
      as [[lang|e] [l1 w2]] eqn:Hres; [|discriminate].
    intros [= <- <-].
    destruct (driven_restore_Ok _ _ _ _ _ Hres)
      as (langs0 & Hav & Hin & [[-> Hcurr]|(v & Ht & ->)]);
      simpl in Hav; injection Hav as <-; exists langs, lang;
      split; auto.
    right. eauto. }
  destruct restore'; [exact (Hrestore w1 Hboost)|].
  destruct (_recorder l) as [r|]; [|discriminate].
  destruct (get r w1) as [[[k|]|e] w2]; try discriminate;
    [|exact (Hrestore w2 Hboost)].
  destruct (truthy_string k); [|exact (Hrestore w2 Hboost)].
  destruct (driven_speak_Ok _ _ _ _ _ Hboost)
    as (langs0 & _ & _ & v & _ & Hav & Hin & _ & _ & Ht & _ & _ & ->).
  simpl in Hav. injection Hav as <-.
  exists langs, k. split; [exact Hin|]. right. eauto.
Qed.

(** *** The invariant of reachable instances *)

Lemma driven_constructor_consistent (options : option (Options W)) :
  driven_consistent (constructor options).
Proof.
  unfold constructor. destruct (defaults options) as [d r].
  repeat split; simpl in *; try discriminate.
Qed.

Lemma driven_setSays_consistent l v :
  driven_consistent l -> _disposed l = false -> truthy v = true ->
  driven_consistent (setSays v l).
Proof.
  intros (Ca & Cb & Cc) Hd Ht. unfold driven_consistent. simpl.
  repeat split; auto; try congruence; apply Cc; assumption.
Qed.

Lemma driven_setCurrLanguage_consistent l v k :
  driven_consistent l -> _disposed l = false -> truthy v = true ->
  driven_consistent (setCurrLanguage (Some k) (setSays v l)).
Proof.
  intros (Ca & Cb & Cc) Hd Ht. unfold driven_consistent. simpl.
  repeat split; auto; try congruence; eauto.
  apply Cc; assumption.
Qed.

Lemma driven_setAvailableLanguages_consistent l langs :
  driven_consistent l -> _disposed l = false ->
  driven_consistent (setAvailableLanguages (Some langs) l).
Proof.
  intros (Ca & Cb & Cc) Hd. unfold driven_consistent. simpl.
  repeat split; auto; try congruence; eauto.
  apply Cc; assumption.
Qed.

Lemma driven_setDriver_consistent l (d : option (DriverInterface W)) :
  driven_consistent l -> driven_consistent (setDriver d l).
Proof. intros H. exact H. Qed.

(** A disposed instance has no available languages, so [speak] and
    [restore] stop at their first line. *)
Lemma driven_speak_not_ready l w k :
  _availableLanguages l = None ->
  speak k (l, w) = (Throw NotReadyError, (l, w)).
Proof. intros Hav. rewrite driven_speak_eq, Hav. reflexivity. Qed.

Lemma driven_restore_not_ready l w :
  _availableLanguages l = None ->
  restore (l, w) = (Throw NotReadyError, (l, w)).
Proof. intros Hav. rewrite driven_restore_eq, Hav. reflexivity. Qed.

Lemma driven_speak_consistent l w k :
  driven_consistent l -> driven_consistent (fst (snd (speak k (l, w)))).
Proof.
  intros Hc. destruct (_disposed l) eqn:Hd.
  - pose proof Hc as (Ca & Cb & Cc). destruct (Cb Hd) as (_ & Hav & _).
    rewrite driven_speak_not_ready by exact Hav. exact Hc.
  - destruct (speak k (l, w)) as [[[]|e] [l' w']] eqn:Hspeak; simpl.
    + destruct (driven_speak_Ok _ _ _ _ _ Hspeak)
        as (_ & _ & _ & v & _ & _ & _ & _ & _ & Ht & _ & _ & ->).
      apply driven_setCurrLanguage_consistent; assumption.
    + destruct (driven_speak_Throw _ _ _ _ _ _ Hspeak) as [->|(v & Ht & ->)];
        [exact Hc | apply driven_setSays_consistent; assumption].
Qed.

Lemma driven_restore_consistent l w :
  driven_consistent l -> driven_consistent (fst (snd (restore (l, w)))).
Proof.
  intros Hc. destruct (_disposed l) eqn:Hd.
  - pose proof Hc as (Ca & Cb & Cc). destruct (Cb Hd) as (_ & Hav & _).
    rewrite driven_restore_not_ready by exact Hav. exact Hc.
  - destruct (restore (l, w)) as [[lang|e] [l' w']] eqn:Hres; simpl.
    + destruct (driven_restore_Ok _ _ _ _ _ Hres)
        as (langs & _ & _ & [[-> _]|(v & Ht & ->)]);
        [exact Hc | apply driven_setCurrLanguage_consistent; assumption].
    + destruct (driven_restore_Throw _ _ _ _ _ Hres) as [->|(v & Ht & ->)];
        [exact Hc | apply driven_setSays_consistent; assumption].
Qed.

Lemma driven_boost_consistent l w restore' :
  driven_consistent l ->
  driven_consistent (fst (snd (boost restore' (l, w)))).
Proof.
  intros Hc. rewrite driven_boost_eq.
  destruct (_disposed l) eqn:Hd; [exact Hc|].
  destruct (_driver l) as [d|]; [|exact Hc].
  destruct (onAvailableLanguages d w) as [[[langs|]|e] w1]; try exact Hc.
  pose proof (driven_setAvailableLanguages_consistent l langs Hc Hd) as Hc1.
  assert (Hrestore : forall w0,
            driven_consistent
              (fst (snd (match restore
                                 (setAvailableLanguages (Some langs) l, w0)
                         with
                         | (Ok _, st') => (Ok tt, st')
                         | (Throw e, st') => (@Throw unit e, st')
                         end)))).
  { intros w0.
    pose proof (driven_restore_consistent _ w0 Hc1) as H.
    destruct (restore _) as [[lang|e] st']; exact H. }
  destruct restore'; [exact (Hrestore w1)|].
  destruct (_recorder l) as [r|]; [|exact Hc1].
  destruct (get r w1) as [[[k|]|e] w2];
    [| exact (Hrestore w2) | exact Hc1].
  destruct (truthy_string k); [|exact (Hrestore w2)].
  apply driven_speak_consistent, Hc1.
Qed.

Lemma driven_run_op_consistent (op : Op W) l w :
  driven_consistent l -> driven_consistent (fst (snd (run_op op (l, w)))).
Proof.
  intros Hc.
  destruct op as [restore' driver'|driver' restore'| |k|]; unfold run_op.
  - rewrite driven_initialize_eq.
    destruct (negb (_disposed l) && _initialized l); [exact Hc|].
    set (l0 := match driver' with
               | Some d => setDriver (Some d) l
               | None => l
               end).
    assert (Hc0 : driven_consistent l0) by (destruct driver'; exact Hc).
    pose proof (driven_boost_consistent l0 w restore' Hc0) as Hb.
    destruct (boost restore' (l0, w)) as [[[]|e] [l' w']] eqn:Hboost;
      simpl in *; [|exact Hb].
    destruct Hb as (Ca & Cb & Cc).
    destruct (driven_boost_Ok _ _ _ _ _ Hboost)
      as (Hd & langs & k & _ & [[-> Hcurr]|(v & _ & ->)]);
      unfold driven_consistent; simpl in *;
      (split; [exact Ca|]); (split; [exact Cb|]); intros _ _; eauto.
  - rewrite driven_reset_eq.
    destruct (negb (_initialized l)); [exact Hc|].
    apply driven_boost_consistent. destruct driver'; exact Hc.
  - pose proof (driven_restore_consistent l w Hc) as H.
    destruct (restore (l, w)) as [r st']; exact H.
  - apply driven_speak_consistent, Hc.
  - rewrite driven_dispose_eq.
    destruct (_disposed l) eqn:Hd; [exact Hc|].
    unfold driven_consistent; simpl. repeat split; try discriminate.
Qed.

Lemma driven_reachable_consistent l : reachable l -> driven_consistent l.
Proof.
  intros [options Hsteps].
  remember (constructor options) as l0 eqn:Hl0.
  induction Hsteps as [l|l l' op w Hsteps IH].
  - subst. apply driven_constructor_consistent.
  - apply (driven_run_op_consistent op l' w). auto.
Qed.

Lemma driven_presetLanguage_Ok_In avail prefs k :
  presetLanguage avail prefs = Ok k -> In k avail.
Proof.
  unfold presetLanguage.
  destruct (array_some_presetLanguage avail prefs None)
    as [[Hall ->]|(k' & Hk' & ->)]; simpl; [discriminate|].
  destruct (truthy_string k'); [|discriminate].
  intros [= <-]. apply first_match_In in Hk'. tauto.
Qed.

(** X21: in the driver-based class [speak] returns only for an available
    key whose payload from the driver is truthy; it has assigned that
    payload, written the key to the recorder and made it the current
    language, so [says] returns the payload. *)
Theorem driven_speak_returns l w k l' w' :
  speak k (l, w) = (Ok tt, (l', w')) ->
  exists langs v,
    availableLanguages l = Ok langs /\ In k langs /\ truthy v = true
    /\ l' = setCurrLanguage (Some k) (setSays v l)
    /\ availableLanguages l' = Ok langs /\ says l' = Ok v
    /\ _currLanguage l' = Some k
    /\ exists (d : DriverInterface W) (r : Recorder W) w1,
         _driver l = Some d /\ onSpeakingChange d k w = (Ok v, w1)
         /\ _recorder l = Some r /\ set r k w1 = (Ok tt, w').
Proof.
  intros Hspeak.
  destruct (driven_speak_Ok _ _ _ _ _ Hspeak)
    as (langs & d & r & v & w1 & Hav & Hin & Hd & Hv & Ht & Hr & Hset & ->).
  exists langs, v. unfold availableLanguages, says. simpl.
  rewrite Hav, Ht. repeat split; auto. exists d, r, w1. auto.
Qed.

(** X22: a [speak] that throws leaves the current language and the
    available languages as they were.  The instance is untouched when the
    call stops before the recorder's write: no available languages, a key
    that is not available, no driver, a driver that throws, or a falsy
    payload, each with its own error.  When the driver gave a truthy
    payload and the recorder's write is what threw (or the recorder was
    released), the payload, and nothing else, has changed, to the value
    the driver gave. *)
Theorem driven_speak_throws l w k e l' w' :
  speak k (l, w) = (Throw e, (l', w')) ->
  _currLanguage l' = _currLanguage l
  /\ _availableLanguages l' = _availableLanguages l
  /\ ((l' = l
       /\ ((_availableLanguages l = None /\ e = NotReadyError /\ w' = w)
           \/ (exists langs,
                 _availableLanguages l = Some langs /\ ~ In k langs
                 /\ e = LanguageUnavailableError k langs /\ w' = w)
           \/ (exists langs,
                 _availableLanguages l = Some langs /\ In k langs
                 /\ ((_driver l = None /\ e = DriverNotDetectedError
                      /\ w' = w)
                     \/ (exists d : DriverInterface W,
                           _driver l = Some d
                           /\ (onSpeakingChange d k w = (Throw e, w')
                               \/ exists v,
                                    onSpeakingChange d k w = (Ok v, w')
                                    /\ truthy v = false
                                    /\ e = NoValueError k))))))
      \/ (exists langs (d : DriverInterface W) v w1,
            _availableLanguages l = Some langs /\ In k langs
            /\ _driver l = Some d
            /\ onSpeakingChange d k w = (Ok v, w1) /\ truthy v = true
            /\ l' = setSays v l
            /\ ((_recorder l = None /\ e = TypeError /\ w' = w1)
                \/ exists r : Recorder W,
                     _recorder l = Some r
                     /\ set r k w1 = (Throw e, w')))).
Proof.
  intros Hspeak.
  pose proof (driven_speak_Throw _ _ _ _ _ _ Hspeak) as Hcases.
  split; [|split].
  - destruct Hcases as [->|(v & _ & ->)]; reflexivity.
  - destruct Hcases as [->|(v & _ & ->)]; reflexivity.
  - clear Hcases. rewrite driven_speak_eq in Hspeak.
    destruct (_availableLanguages l) as [langs|] eqn:Hav.
    2:{ injection Hspeak as <- <- <-. left. split; [reflexivity|].
        left. repeat split. }
    destruct (includes langs k) eqn:Hin.
    2:{ injection Hspeak as <- <- <-. apply includes_not_In in Hin.
        left. split; [reflexivity|]. right. left. exists langs.
        split; [first [reflexivity | exact Hav]|]. split; [exact Hin|]. split; reflexivity. }
    apply includes_In in Hin.
    destruct (_driver l) as [d|] eqn:Hdrv.
    2:{ injection Hspeak as <- <- <-. left. split; [reflexivity|].
        right. right. exists langs.
        split; [first [reflexivity | exact Hav]|]. split; [exact Hin|].
        left. repeat split. }
    destruct (onSpeakingChange d k w) as [[v|e0] w1] eqn:Hv.
    2:{ injection Hspeak as <- <- <-. left. split; [reflexivity|].
        right. right. exists langs.
        split; [first [reflexivity | exact Hav]|]. split; [exact Hin|].
        right. exists d. split; [first [reflexivity | exact Hdrv]|]. left. first [reflexivity | exact Hv]. }
    destruct (truthy v) eqn:Ht.
    2:{ injection Hspeak as <- <- <-. left. split; [reflexivity|].
        right. right. exists langs.
        split; [first [reflexivity | exact Hav]|]. split; [exact Hin|].
        right. exists d. split; [first [reflexivity | exact Hdrv]|]. right. exists v.
        split; [first [reflexivity | exact Hv]|]. split; [first [reflexivity | exact Ht]|reflexivity]. }
    right. exists langs, d, v, w1.
    split; [first [reflexivity | exact Hav]|]. split; [exact Hin|]. split; [first [reflexivity | exact Hdrv]|].
    split; [first [reflexivity | exact Hv]|]. split; [first [reflexivity | exact Ht]|].
    destruct (_recorder l) as [r|] eqn:Hr.
    + destruct (set r k w1) as [[[]|e0] w2] eqn:Hset; [discriminate|].
      injection Hspeak as <- <- <-. split; [reflexivity|].
      right. exists r. split; [reflexivity|first [reflexivity | exact Hset]].
    + injection Hspeak as <- <- <-. split; [reflexivity|].
      left. repeat split.
Qed.

(** X23: in the driver-based class, after any [initialize], [reset],
    [restore] or [speak] that returned, the current language is one of the
    available languages and [says] returns. *)
Theorem driven_success_membership (op : Op W) l w l' w' :
  reachable l -> op <> OpDispose ->
  run_op op (l, w) = (Ok tt, (l', w')) ->
  exists langs k v,
    availableLanguages l' = Ok langs /\ _currLanguage l' = Some k
    /\ In k langs /\ says l' = Ok v.
Proof.
  intros Hreach Hop Hrun.
  pose proof (driven_reachable_consistent l Hreach) as Hc.
  assert (Hboost : forall l0 restore' l1 w0 w1,
            driven_consistent l0 ->
            boost restore' (l0, w0) = (Ok tt, (l1, w1)) ->
            exists langs k v,
              _availableLanguages l1 = Some langs
              /\ _currLanguage l1 = Some k /\ In k langs
              /\ _says l1 = v /\ truthy v = true).
  { intros l0 restore' l1 w0 w1 (Ca & _) Hb.
    destruct (driven_boost_Ok _ _ _ _ _ Hb)
      as (_ & langs & k & Hin & [[-> Hcurr]|(v & Ht & ->)]).
    - exists langs, k, (_says l0). simpl. repeat split; eauto.
    - exists langs, k, v. simpl. auto. }
  assert (Hgoal : exists langs k v,
            _availableLanguages l' = Some langs
            /\ _currLanguage l' = Some k /\ In k langs
            /\ _says l' = v /\ truthy v = true).
  { destruct op as [restore' driver'|driver' restore'| |k|];
      unfold run_op in Hrun.
    - rewrite driven_initialize_eq in Hrun.
      destruct (negb (_disposed l) && _initialized l); [discriminate|].
      destruct (boost restore' _) as [[[]|e] [l1 w1]] eqn:Hb; [|discriminate].
      injection Hrun as <- <-.
      apply Hboost in Hb; [|destruct driver'; exact Hc].
      destruct Hb as (langs & k & v & H). exists langs, k, v. exact H.
    - rewrite driven_reset_eq in Hrun.
      destruct (negb (_initialized l)); [discriminate|].
      apply Hboost in Hrun; [exact Hrun | destruct driver'; exact Hc].
    - destruct (restore (l, w)) as [[lang|e] [l1 w1]] eqn:Hres;
        [|discriminate].
      injection Hrun as <- <-.
      destruct (driven_restore_Ok _ _ _ _ _ Hres)
        as (langs & Hav & Hin & [[-> Hcurr]|(v & Ht & ->)]).
      + destruct Hc as (Ca & _).
        exists langs, lang, (_says l). repeat split; eauto.
      + exists langs, lang, v. simpl. auto.
    - destruct (driven_speak_Ok _ _ _ _ _ Hrun)
        as (langs & _ & _ & v & _ & Hav & Hin & _ & _ & Ht & _ & _ & ->).
      exists langs, k, v. simpl. auto.
    - congruence. }
  destruct Hgoal as (langs & k & v & Hav & Hcurr & Hin & Hs & Ht).
  exists langs, k, v. unfold availableLanguages, says.
  rewrite Hav, Hs, Ht. auto.
Qed.

(** X24: on an initialized driver-based instance that is not disposed,
    whatever calls were made and whether they returned, [availableLanguages]
    and [says] return and there is a current language. *)
Theorem driven_ready_getters l :
  reachable l -> initialized l = true -> disposed l = false ->
  (exists langs, availableLanguages l = Ok langs)
  /\ (exists v, says l = Ok v)
  /\ (exists k, _currLanguage l = Some k).
Proof.
  intros Hreach Hi Hd.
  destruct (driven_reachable_consistent l Hreach) as (Ca & _ & Cc).
  destruct (Cc Hi Hd) as [[langs Hav] [k Hcurr]].
  unfold availableLanguages, says. rewrite Hav, (Ca k Hcurr).
  repeat split; eauto.
Qed.

(** X25: a disposed driver-based instance stays as disposal left it but
    for the driver a later call hands it: the three getters, [speak] and
    [restore] throw the not-ready error, [initialize] and [dispose] the
    already-disposed error, and [reset] the not-initialized error, or the
    already-disposed error when the instance had been initialized. *)
Theorem driven_disposed_rejects l :
  reachable l -> disposed l = true ->
  availableLanguages l = Throw NotReadyError
  /\ speaking l = Throw NotReadyError
  /\ says l = Throw NotReadyError
  /\ (forall restore' (driver' : option (DriverInterface W)) w,
        initialize restore' driver' (l, w)
        = (Throw AlreadyDisposedError,
           (match driver' with
            | Some d => setDriver (Some d) l
            | None => l
            end, w)))
  /\ (forall (driver' : option (DriverInterface W)) restore' w,
        reset driver' restore' (l, w)
        = if _initialized l
          then (Throw AlreadyDisposedError,
                (match driver' with
                 | Some d => setDriver (Some d) l
                 | None => l
                 end, w))
          else (Throw NotInitializedError, (l, w)))
  /\ (forall k w, speak k (l, w) = (Throw NotReadyError, (l, w)))
  /\ (forall w, restore (l, w) = (Throw NotReadyError, (l, w)))
  /\ (forall w, dispose (l, w) = (Throw AlreadyDisposedError, (l, w))).
Proof.
  intros Hreach Hd. unfold disposed in Hd.
  destruct (driven_reachable_consistent l Hreach) as (_ & Cb & _).
  destruct (Cb Hd) as (Hr & Hav & Hcurr & Hsays).
  unfold availableLanguages, speaking, says. rewrite Hav, Hcurr, Hsays.
  repeat (split; [reflexivity|]).
  split; [|split; [|split; [|split]]].
  - intros restore' driver' w. rewrite driven_initialize_eq, Hd. simpl.
    rewrite driven_boost_eq.
    destruct driver'; simpl; rewrite Hd; reflexivity.
  - intros driver' restore' w. rewrite driven_reset_eq.
    destruct (_initialized l); simpl; [|reflexivity].
    rewrite driven_boost_eq.
    destruct driver'; simpl; rewrite Hd; reflexivity.
  - intros k w. apply driven_speak_not_ready, Hav.
  - intros w. apply driven_restore_not_ready, Hav.
  - intros w. rewrite driven_dispose_eq, Hd. reflexivity.
Qed.

(** X26: the driver-based [initialize], when the recorder remembers a
    language the driver does not offer, throws the language-unavailable
    error: the driver's languages are installed, the instance is not
    initialized, and nothing is spoken. *)
Theorem driven_remembered_unavailable l w (d : DriverInterface W)
    (r : Recorder W) langs w1 k w2 :
  _disposed l = false -> _initialized l = false ->
  _driver l = Some d -> _recorder l = Some r ->
  onAvailableLanguages d w = (Ok (LangArray langs), w1) ->
  get r w1 = (Ok (Some k), w2) -> truthy_string k = true ->
  ~ In k langs ->
  initialize false None (l, w)
  = (Throw (LanguageUnavailableError k langs),
     (setAvailableLanguages (Some langs) l, w2))
  /\ initialized (setAvailableLanguages (Some langs) l) = false
  /\ _currLanguage (setAvailableLanguages (Some langs) l) = _currLanguage l
  /\ message (LanguageUnavailableError k langs)
     = ("[langer] Can not find the " ++ dquote ++ k ++ dquote
        ++ " language among the available languages("
        ++ join_comma langs ++ ").")%string.
Proof.
  intros Hd Hi Hdrv Hr Hlangs Hget Ht Hnot.
  split; [|split; [exact Hi | split; reflexivity]].
  rewrite driven_initialize_eq, Hd, Hi. simpl.
  rewrite driven_boost_eq, Hd, Hdrv, Hlangs, Hr, Hget, Ht.
  rewrite driven_speak_eq. simpl.
  apply includes_not_In in Hnot. rewrite Hnot. reflexivity.
Qed.

(** X27: [restore], when the driver presets the language the instance
    already speaks, returns that language and changes nothing: the driver
    is not asked for the payload and the recorder is not written. *)
Theorem driven_restore_same_language l w langs (d : DriverInterface W) k w1 :
  _availableLanguages l = Some langs -> _driver l = Some d ->
  _currLanguage l = Some k ->
  onPresetLanguage d langs w = (Ok k, w1) -> In k langs ->
  restore (l, w) = (Ok k, (l, w1)).
Proof.
  intros Hav Hdrv Hcurr Hpre Hin.
  rewrite driven_restore_eq, Hav, Hdrv, Hpre, Hcurr.
  apply includes_In in Hin. rewrite Hin. simpl.
  rewrite String.eqb_refl. reflexivity.
Qed.

(** X28: a first visit with a [Driver01].  When the driver object holds
    the dictionary [data] and the preferences [ps], nothing truthy is
    remembered, [presetLanguage] finds [k] and the dictionary's payload for
    [k] is truthy, [initialize] returns once the default recorder's write
    does: the available languages are the dictionary's keys, [k] is spoken
    with its payload. *)
Theorem driver01_first_visit (deref : W -> Driver01) data ps k w w' :
  deref w = {| Driver01_data := Some data; Driver01_priorities := Some ps |} ->
  truthy_opt (localStorage_getItem LOCAL_STORAGE_KEY w) = false ->
  presetLanguage (Object_keys data) ps = Ok k ->
  truthy (get_prop data k) = true ->
  set defaultRecorder k w = (Ok tt, w') ->
  initialize false None
    (constructor
       (Some {| Options_driver := Some (Driver01_interface deref);
                Options_recorder := None |}), w)
  = (Ok tt,
     ({| _driver := Some (Driver01_interface deref);
         _recorder := Some defaultRecorder;
         _availableLanguages := Some (Object_keys data);
         _says := get_prop data k; _currLanguage := Some k;
         _initialized := true; _disposed := false |}, w')).
Proof.
  intros Hderef Hget Hpre Ht Hset.
  pose proof (driven_presetLanguage_Ok_In _ _ _ Hpre) as Hin.
  apply includes_In in Hin.
  rewrite driven_initialize_eq. simpl.
  rewrite driven_boost_eq. simpl. rewrite Hderef. simpl.
  assert (Hrestore :
    restore (setAvailableLanguages (Some (Object_keys data))
               (constructor
                  (Some {| Options_driver := Some (Driver01_interface deref);
                           Options_recorder := None |})), w)
    = (Ok k,
       ({| _driver := Some (Driver01_interface deref);
           _recorder := Some defaultRecorder;
           _availableLanguages := Some (Object_keys data);
           _says := get_prop data k; _currLanguage := Some k;
           _initialized := false; _disposed := false |}, w'))).
  { rewrite driven_restore_eq. simpl. rewrite Hderef.
    unfold Driver01_onPresetLanguage. cbn [Driver01_priorities].
    rewrite Hpre, Hin. cbn [differs]. rewrite driven_speak_eq. simpl.
    rewrite Hin, Hderef.
    unfold Driver01_onSpeakingChange. cbn [Driver01_data]. rewrite Ht.
    change (let (r0, w'0) := localStorage_setItem LOCAL_STORAGE_KEY k w in
            match thrown_message r0 with
            | Some msg => (Throw (HostError msg), w'0)
            | None => (Ok tt, w'0)
            end) with (set defaultRecorder k w).
    rewrite Hset. reflexivity. }
  destruct (localStorage_getItem LOCAL_STORAGE_KEY w) as [s|];
    simpl in Hget; [rewrite Hget|]; rewrite Hrestore; reflexivity.
Qed.

(** X29: the instance holds a reference to its [Driver01], not a copy.
    After [driver.update(data)], [reset()] on an initialized instance that
    is not disposed installs the keys of the new dictionary; it then speaks
    the remembered language with the new dictionary's payload when the new
    dictionary has it with a truthy payload, and throws the
    language-unavailable error when the new dictionary lacks it. *)
Theorem driver01_update_then_reset (deref : W -> Driver01) l w data
    (r : Recorder W) k :
  _initialized l = true -> _disposed l = false ->
  _driver l = Some (Driver01_interface deref) -> _recorder l = Some r ->
  Driver01_data (deref w) = Some data ->
  get r w = (Ok (Some k), w) -> truthy_string k = true ->
  (forall w',
     In k (Object_keys data) -> truthy (get_prop data k) = true ->
     set r k w = (Ok tt, w') ->
     reset None false (l, w)
     = (Ok tt,
        (setCurrLanguage (Some k)
           (setSays (get_prop data k)
              (setAvailableLanguages (Some (Object_keys data)) l)), w')))
  /\ (~ In k (Object_keys data) ->
      reset None false (l, w)
      = (Throw (LanguageUnavailableError k (Object_keys data)),
         (setAvailableLanguages (Some (Object_keys data)) l, w))).
Proof.
  intros Hi Hd Hdrv Hr Hdata Hget Ht.
  assert (Hreset : reset None false (l, w)
                   = speak k (setAvailableLanguages (Some (Object_keys data)) l,
                              w)).
  { rewrite driven_reset_eq, Hi. simpl.
    rewrite driven_boost_eq, Hd, Hdrv. simpl.
    unfold Driver01_onAvailableLanguages. rewrite Hdata, Hr, Hget, Ht.
    reflexivity. }
  rewrite Hreset, driven_speak_eq. simpl. rewrite Hdrv, Hr. simpl.
  unfold Driver01_onSpeakingChange. rewrite Hdata.
  split.
  - intros w' Hin Htruthy Hset. apply includes_In in Hin.
    rewrite Hin, Htruthy, Hset. reflexivity.
  - intros Hnot. apply includes_not_In in Hnot. rewrite Hnot. reflexivity.
Qed.

(** X30: once the driver object has been disposed, [reset()] on an
    initialized instance that is not disposed throws before anything is
    assigned: a runtime type error with a [Driver01], whose
    [onAvailableLanguages] takes the keys of its released dictionary, and
    the not-an-array error with a [Driver02], which hands back its
    released list. *)
Theorem driven_reset_disposed_driver l w restore' :
  _initialized l = true -> _disposed l = false ->
  (forall (deref : W -> Driver01) d,
     _driver l = Some (Driver01_interface deref) ->
     deref w = Driver01_dispose d ->
     reset None restore' (l, w) = (Throw TypeError, (l, w)))
  /\ (forall (deref : W -> Driver02) d,
        _driver l = Some (Driver02_interface deref) ->
        deref w = Driver02_dispose d ->
        reset None restore' (l, w) = (Throw NotAnArrayError, (l, w))).
Proof.
  intros Hi Hd. split; intros deref d Hdrv Hderef;
    rewrite driven_reset_eq, Hi; simpl;
    rewrite driven_boost_eq, Hd, Hdrv; simpl; rewrite Hderef; reflexivity.
Qed.

End DrivenProperties.

(** ** The driver-based class on a page with a [Driver01] *)

Lemma driven_reachable_en : Driven.reachable driven_en.
Proof.
  exists driven_options.
  exact (Driven.steps_call _ _ (Driven.OpInitialize false None) page_fetched
           (Driven.steps_refl _)).
Qed.

Lemma driven_reachable_disposed : Driven.reachable driven_disposed.
Proof.
  exists driven_options.
  exact (Driven.steps_call _ _ Driven.OpDispose page_en
           (Driven.steps_call _ _ (Driven.OpInitialize false None)
              page_fetched (Driven.steps_refl _))).
Qed.

Lemma driven_speak_returns_witness :
  Driven.speak "zh" (driven_en, page_en)
  = (Driven.Ok tt,
     (fst (snd (Driven.speak "zh" (driven_en, page_en))),
      snd (snd (Driven.speak "zh" (driven_en, page_en)))))
  /\ exists v,
       truthy v = true
       /\ Driven.says (fst (snd (Driven.speak "zh" (driven_en, page_en))))
          = Driven.Ok v
       /\ Driven._currLanguage
            (fst (snd (Driven.speak "zh" (driven_en, page_en)))) = Some "zh".
Proof.
  assert (Hrun : Driven.speak "zh" (driven_en, page_en)
                 = (Driven.Ok tt,
                    (fst (snd (Driven.speak "zh" (driven_en, page_en))),
                     snd (snd (Driven.speak "zh" (driven_en, page_en))))))
    by reflexivity.
  destruct (driven_speak_returns driven_en page_en "zh" _ _ Hrun)
    as (langs & v & _ & _ & Ht & _ & _ & Hsays & Hcurr & _).
  split; [exact Hrun|]. exists v. auto.
Defined.

(** [speak('zh')] on the instance speaking en when the storage refuses the
    write: the payload is the one of zh, the language is still en. *)
Lemma driven_speak_throws_witness :
  Driven.speak "zh" (driven_en, page_full page_en)
  = (Driven.Throw (Driven.HostError "QuotaExceededError"),
     (Driven.setSays (get_prop fetched "zh") driven_en, page_full page_en))
  /\ Driven._currLanguage (Driven.setSays (get_prop fetched "zh") driven_en)
     = Some "en"
  /\ Driven._availableLanguages
       (Driven.setSays (get_prop fetched "zh") driven_en)
     = Some ["en"; "zh"]
  /\ exists (d : Driven.DriverInterface Page) v w1,
       Driven._driver driven_en = Some d
       /\ Driven.onSpeakingChange d "zh" (page_full page_en) = (Driven.Ok v, w1)
       /\ truthy v = true
       /\ Driven.setSays (get_prop fetched "zh") driven_en
          = Driven.setSays v driven_en.
Proof.
  assert (Hrun : Driven.speak "zh" (driven_en, page_full page_en)
                 = (Driven.Throw (Driven.HostError "QuotaExceededError"),
                    (Driven.setSays (get_prop fetched "zh") driven_en,
                     page_full page_en)))
    by reflexivity.
  destruct (driven_speak_throws driven_en (page_full page_en) "zh" _ _ _ Hrun)
    as (Hcurr & Hav & [[Hsame _]|Hwrite]).
  - exfalso. apply (f_equal Driven._says) in Hsame. discriminate.
  - destruct Hwrite as (langs & d & v & w1 & _ & _ & Hd & Hv & Ht & Hl' & _).
    split; [exact Hrun|]. split; [rewrite Hcurr; reflexivity|].
    split; [rewrite Hav; reflexivity|].
    exists d, v, w1. auto.
Defined.

Lemma driven_success_membership_witness :
  Driven.reachable driven_en
  /\ Driven.OpSpeak (W := Page) "zh" <> Driven.OpDispose
  /\ exists langs k v,
       Driven.availableLanguages
         (fst (snd (Driven.speak "zh" (driven_en, page_en)))) = Driven.Ok langs
       /\ Driven._currLanguage
            (fst (snd (Driven.speak "zh" (driven_en, page_en)))) = Some k
       /\ In k langs
       /\ Driven.says (fst (snd (Driven.speak "zh" (driven_en, page_en))))
          = Driven.Ok v.
Proof.
  assert (Hop : Driven.OpSpeak (W := Page) "zh" <> Driven.OpDispose)
    by discriminate.
  assert (Hrun : Driven.run_op (Driven.OpSpeak "zh") (driven_en, page_en)
                 = (Driven.Ok tt,
                    (fst (snd (Driven.speak "zh" (driven_en, page_en))),
                     snd (snd (Driven.speak "zh" (driven_en, page_en))))))
    by reflexivity.
  split; [exact driven_reachable_en|]. split; [exact Hop|].
  exact (driven_success_membership (Driven.OpSpeak "zh") driven_en page_en
           _ _ driven_reachable_en Hop Hrun).
Defined.

Lemma driven_ready_getters_witness :
  Driven.reachable driven_en /\ Driven.initialized driven_en = true
  /\ Driven.disposed driven_en = false
  /\ (exists langs, Driven.availableLanguages driven_en = Driven.Ok langs)
  /\ (exists v, Driven.says driven_en = Driven.Ok v)
  /\ (exists k, Driven._currLanguage driven_en = Some k).
Proof.
  assert (Hi : Driven.initialized driven_en = true)
    by reflexivity.
  assert (Hd : Driven.disposed driven_en = false)
    by reflexivity.
  split; [exact driven_reachable_en|]. split; [exact Hi|].
  split; [exact Hd|].
  exact (driven_ready_getters driven_en driven_reachable_en Hi Hd).
Defined.

Lemma driven_disposed_rejects_witness :
  Driven.reachable driven_disposed /\ Driven.disposed driven_disposed = true
  /\ Driven.says driven_disposed = Driven.Throw Driven.NotReadyError
  /\ Driven.initialize false None (driven_disposed, page_en)
     = (Driven.Throw Driven.AlreadyDisposedError, (driven_disposed, page_en))
  /\ Driven.speak "en" (driven_disposed, page_en)
     = (Driven.Throw Driven.NotReadyError, (driven_disposed, page_en)).
Proof.
  assert (Hd : Driven.disposed driven_disposed = true)
    by reflexivity.
  destruct (driven_disposed_rejects driven_disposed
              driven_reachable_disposed Hd)
    as (_ & _ & Hsays & Hinit & _ & Hspeak & _).
  split; [exact driven_reachable_disposed|]. split; [exact Hd|].
  split; [exact Hsays|].
  split; [exact (Hinit false None page_en) | exact (Hspeak "en" page_en)].
Defined.

(** The browser remembers fr, the driver offers en and zh. *)
Lemma driven_remembered_unavailable_witness :
  ~ In "fr" ["en"; "zh"]
  /\ Driven.initialize false None
       (Driven.constructor driven_options, page_remembering "fr")
     = (Driven.Throw (Driven.LanguageUnavailableError "fr" ["en"; "zh"]),
        (Driven.setAvailableLanguages (Some ["en"; "zh"])
           (Driven.constructor driven_options),
         page_remembering "fr")).
Proof.
  assert (Hnot : ~ In "fr" ["en"; "zh"])
    by (intros [H|[H|[]]]; discriminate).
  assert (Hlangs : Driven.onAvailableLanguages
                     (Driven.Driver01_interface page_driver)
                     (page_remembering "fr")
                   = (Driven.Ok (Driven.LangArray ["en"; "zh"]),
                      page_remembering "fr")) by reflexivity.
  assert (Hget : Driven.get Driven.defaultRecorder (page_remembering "fr")
                 = (Driven.Ok (Some "fr"), page_remembering "fr"))
    by reflexivity.
  destruct (driven_remembered_unavailable
              (Driven.constructor driven_options) (page_remembering "fr")
              (Driven.Driver01_interface page_driver) Driven.defaultRecorder
              ["en"; "zh"] (page_remembering "fr") "fr" (page_remembering "fr")
              eq_refl eq_refl eq_refl eq_refl Hlangs Hget eq_refl Hnot)
    as [Hinit _].
  split; [exact Hnot | exact Hinit].
Defined.

(** [restore()] on the instance that already speaks the preset en. *)
Lemma driven_restore_same_language_witness :
  Driven._currLanguage driven_en = Some "en" /\ In "en" ["en"; "zh"]
  /\ Driven.restore (driven_en, page_en) = (Driven.Ok "en", (driven_en, page_en)).
Proof.
  assert (Hav : Driven._availableLanguages driven_en = Some ["en"; "zh"])
    by reflexivity.
  assert (Hdrv : Driven._driver driven_en
                 = Some (Driven.Driver01_interface page_driver))
    by reflexivity.
  assert (Hcurr : Driven._currLanguage driven_en = Some "en")
    by reflexivity.
  assert (Hpre : Driven.onPresetLanguage
                   (Driven.Driver01_interface page_driver) ["en"; "zh"]
                   page_en
                 = (Driven.Ok "en", page_en)) by reflexivity.
  assert (Hin : In "en" ["en"; "zh"]) by (left; reflexivity).
  split; [exact Hcurr|]. split; [exact Hin|].
  exact (driven_restore_same_language driven_en page_en ["en"; "zh"]
           (Driven.Driver01_interface page_driver) "en" page_en
           Hav Hdrv Hcurr Hpre Hin).
Defined.

Lemma driver01_first_visit_witness :
  Driven.presetLanguage (Object_keys fetched) priorities = Driven.Ok "en"
  /\ truthy (get_prop fetched "en") = true
  /\ Driven.initialize false None
       (Driven.constructor driven_options, page_fetched)
     = (Driven.Ok tt, (driven_en, page_en))
  /\ Driven.speaking driven_en = Driven.Ok "en".
Proof.
  assert (Hderef : page_driver page_fetched
                   = {| Driven.Driver01_data := Some fetched;
                        Driven.Driver01_priorities := Some priorities |})
    by reflexivity.
  assert (Hget : truthy_opt
                   (localStorage_getItem LOCAL_STORAGE_KEY page_fetched)
                 = false) by reflexivity.
  assert (Hpre : Driven.presetLanguage (Object_keys fetched) priorities
                 = Driven.Ok "en") by reflexivity.
  assert (Ht : truthy (get_prop fetched "en") = true) by reflexivity.
  assert (Hset : Driven.set Driven.defaultRecorder "en" page_fetched
                 = (Driven.Ok tt, page_en)) by reflexivity.
  pose proof (driver01_first_visit page_driver fetched priorities "en"
                page_fetched page_en Hderef Hget Hpre Ht Hset) as Hinit.
  split; [exact Hpre|]. split; [exact Ht|].
  split; [|reflexivity].
  unfold driven_options. rewrite Hinit. reflexivity.
Defined.

(** [driver.update(updated)] and [driver.update(only_zh)], then
    [reset()], on the instance that speaks and remembers en. *)
Lemma driver01_update_then_reset_witness :
  Driven.initialized driven_en = true /\ Driven.disposed driven_en = false
  /\ In "en" (Object_keys updated)
  /\ Driven.availableLanguages
       (fst (snd (Driven.reset None false
                    (driven_en, page_update updated page_en))))
     = Driven.Ok ["en"; "zh"; "ja"]
  /\ Driven.says
       (fst (snd (Driven.reset None false
                    (driven_en, page_update updated page_en))))
     = Driven.Ok (get_prop updated "en").
Proof.
  assert (Hi : Driven._initialized driven_en = true)
    by reflexivity.
  assert (Hd : Driven._disposed driven_en = false)
    by reflexivity.
  assert (Hdrv : Driven._driver driven_en
                 = Some (Driven.Driver01_interface page_driver))
    by reflexivity.
  assert (Hr : Driven._recorder driven_en = Some Driven.defaultRecorder)
    by reflexivity.
  assert (Hdata : Driven.Driver01_data
                    (page_driver (page_update updated page_en))
                  = Some updated) by reflexivity.
  assert (Hget : Driven.get Driven.defaultRecorder
                   (page_update updated page_en)
                 = (Driven.Ok (Some "en"), page_update updated page_en))
    by reflexivity.
  assert (Hin : In "en" (Object_keys updated)) by (left; reflexivity).
  assert (Hset : Driven.set Driven.defaultRecorder "en"
                   (page_update updated page_en)
                 = (Driven.Ok tt, page_update updated page_en))
    by reflexivity.
  destruct (driver01_update_then_reset page_driver driven_en
              (page_update updated page_en) updated Driven.defaultRecorder
              "en" Hi Hd Hdrv Hr Hdata Hget eq_refl) as [Hkeep _].
  pose proof (Hkeep _ Hin eq_refl Hset) as Hreset.
  split; [exact Hi|]. split; [exact Hd|]. split; [exact Hin|].
  rewrite Hreset. split; reflexivity.
Defined.

(** [driver.dispose()], then [reset()], on the instance of the page. *)
Lemma driven_reset_disposed_driver_witness :
  Driven.initialized driven_en = true /\ Driven.disposed driven_en = false
  /\ Driven.reset None false (driven_en, page_dispose_driver page_en)
     = (Driven.Throw Driven.TypeError,
        (driven_en, page_dispose_driver page_en)).
Proof.
  assert (Hi : Driven._initialized driven_en = true) by reflexivity.
  assert (Hd : Driven._disposed driven_en = false) by reflexivity.
  destruct (driven_reset_disposed_driver driven_en
              (page_dispose_driver page_en) false Hi Hd) as [H01 _].
  split; [exact Hi|]. split; [exact Hd|].
  exact (H01 page_driver (page_driver page_en) eq_refl eq_refl).
Defined.
